(** * Collection-and-aggregation pipeline of collector.py

    A shallow embedding of [get_all_user_activity], [remove_duplicates],
    [group_by_market], [save_market_to_csv] and [process_wallet], of the
    wallet file functions ([ensure_wallet_file], [load_wallets],
    [append_wallet], [add_new_wallet_interactive]) and of the menus
    [select_wallet_menu] and [select_market_menu], and the properties stated
    over them.

    Console output ([print]) and the inter-page [time.sleep] have no effect on
    any value computed below and are left out. *)

From stdpp Require Import gmap strings list pretty sorting.
From Stdlib Require Import ZArith Lia Ascii.
From Equations Require Import Equations.

Open Scope string_scope.
Open Scope nat_scope.
Open Scope list_scope.

(** ** Data model *)

(** The JSON values the pipeline reads as plain (hashable) values: [null],
    integers and strings.  Fractional numbers, booleans and arrays are outside
    the model. *)
Inductive scalar :=
  | SNull
  | SInt (z : Z)
  | SStr (s : string).

#[global] Instance scalar_eq_dec : EqDecision scalar.
Proof. solve_decision. Defined.

#[global] Instance scalar_countable : Countable scalar.
Proof.
  refine (inj_countable'
    (λ v, match v with
          | SNull => inl ()
          | SInt z => inr (inl z)
          | SStr s => inr (inr s)
          end)
    (λ x, match x with
          | inl _ => SNull
          | inr (inl z) => SInt z
          | inr (inr s) => SStr s
          end) _).
  intros []; reflexivity.
Defined.

(** Python truthiness: [None], [0] and [''] are falsy. *)
Definition truthy (v : scalar) : bool :=
  match v with
  | SNull => false
  | SInt z => negb (z =? 0)%Z
  | SStr s => negb (String.eqb s "")
  end.

(** One activity record as decoded from the API: a JSON object.  [fields]
    holds its plain entries; [market] is the entry named 'market' when that
    entry is itself an object (the only entry the code inspects with
    [isinstance(..., dict)]), and [None] when it is absent or not an object. *)
Record activity := Activity {
  fields : gmap string scalar;
  market : option (gmap string scalar)
}.

#[global] Instance activity_eq_dec : EqDecision activity.
Proof. solve_decision. Defined.

(** [d.get(k, dflt)]. *)
Definition dict_get (d : gmap string scalar) (k : string) (dflt : scalar) : scalar :=
  default dflt (d !! k).

(** [activity.get(k)]: the entry, or [None] when the key is absent. *)
Definition get (a : activity) (k : string) : scalar := dict_get (fields a) k SNull.

(** [activity.get(k, dflt)]. *)
Definition get_or (a : activity) (k : string) (dflt : scalar) : scalar :=
  dict_get (fields a) k dflt.

(** ** Deduplicator: [remove_duplicates] *)

(** The two shapes of [unique_key]: the transaction hash alone, or the
    4-tuple built for activities without one.  A tuple never equals a plain
    value, so the two shapes are distinct constructors. *)
Inductive key :=
  | KHash (tx_hash : scalar)
  | KTuple (timestamp type_ market_slug side : scalar).

#[global] Instance key_eq_dec : EqDecision key.
Proof. solve_decision. Defined.

#[global] Instance key_countable : Countable key.
Proof.
  refine (inj_countable'
    (λ k, match k with
          | KHash h => inl h
          | KTuple t ty m s => inr (t, ty, m, s)
          end)
    (λ x, match x with
          | inl h => KHash h
          | inr (t, ty, m, s) => KTuple t ty m s
          end) _).
  intros []; reflexivity.
Defined.

(** [activity.get('market', {}).get('slug')
      if isinstance(activity.get('market'), dict) else None] *)
Definition market_slug (a : activity) : scalar :=
  match market a with
  | Some m => dict_get m "slug" SNull
  | None => SNull
  end.

Definition unique_key (a : activity) : key :=
  let tx_hash := get a "transactionHash" in
  if truthy tx_hash then KHash tx_hash
  else KTuple (get a "timestamp") (get a "type") (market_slug a) (get a "side").

(** The loop state of [remove_duplicates]. *)
Record dedup_state := DedupState {
  seen : gset key;
  unique_activities : list activity;
  duplicates_count : nat
}.

Definition dedup_init : dedup_state :=
  {| seen := ∅; unique_activities := []; duplicates_count := 0 |}.

(** One iteration of [for activity in activities]. *)
Definition dedup_step (st : dedup_state) (a : activity) : dedup_state :=
  let k := unique_key a in
  if decide (k ∈ seen st) then
    {| seen := seen st;
       unique_activities := unique_activities st;
       duplicates_count := S (duplicates_count st) |}
  else
    {| seen := {[k]} ∪ seen st;
       unique_activities := unique_activities st ++ [a];
       duplicates_count := duplicates_count st |}.

Definition remove_duplicates (activities : list activity) : list activity :=
  unique_activities (foldl dedup_step dedup_init activities).

(** ** Grouper: [group_by_market] *)

(** The key the Grouper reads: the top-level 'slug' entry. *)
Definition slug_of (a : activity) : scalar := get a "slug".

(** [markets[slug].append(activity)] on an insertion-ordered dict: an existing
    key keeps its position, a new key goes last. *)
Fixpoint markets_append (slug : scalar) (a : activity)
    (markets : list (scalar * list activity)) : list (scalar * list activity) :=
  match markets with
  | [] => [(slug, [a])]
  | (k, l) :: rest =>
      if decide (k = slug) then (k, l ++ [a]) :: rest
      else (k, l) :: markets_append slug a rest
  end.

Definition group_step (markets : list (scalar * list activity)) (a : activity)
    : list (scalar * list activity) :=
  let slug := slug_of a in
  if truthy slug then markets_append slug a markets else markets.

Definition group_by_market (activities : list activity)
    : list (scalar * list activity) :=
  foldl group_step [] activities.

(** ** Fetcher: [get_all_user_activity] *)

(** The query parameters that vary; [sortBy] and [sortDirection] are
    constants of the code. *)
Record request := Request {
  req_user : string;
  req_limit : Z;
  req_offset : Z
}.

(** What one [requests.get] followed by [raise_for_status] and [json()]
    yields: a [RequestException] (timeout, bad status, undecodable body), or
    the decoded list of records. *)
Inductive response :=
  | RequestException
  | Json (data : list activity).

(** The remote endpoint.  Within one run every offset is requested at most
    once, so a function of the request covers a stateful server as well. *)
Definition source := request → response.

(** The value returned by the Fetcher, together with the page requests it
    issued, in order (its only effect). *)
Record fetched := Fetched {
  all_activities : list activity;
  requests : list request
}.

Definition limit : Z := 500.

Definition inspect {A} (a : A) : {b | a = b} := exist _ a eq_refl.

(** The [while] loop; [all] and [off] are [all_activities] and [offset].
    It terminates because [offset] grows by [limit] per turn and the loop
    condition bounds it. *)
Equations? fetch_loop (src : source) (wallet_address : string)
    (max_records : nat) (all : list activity) (off : Z) (sent : list request)
    : fetched by wf (Z.to_nat (10500 - off)) lt :=
  fetch_loop src wallet_address max_records all off sent
    with inspect ((length all <? max_records) && (off <=? 10000)%Z) => {
    | exist _ false _ => Fetched all sent
    | exist _ true Hcond =>
        let params := Request wallet_address limit off in
        match src params with
        | RequestException => Fetched all (sent ++ [params])
        | Json data =>
            if length data =? 0 then Fetched all (sent ++ [params])
            else if (Z.of_nat (length data) <? limit)%Z
              then Fetched (all ++ data) (sent ++ [params])
            else fetch_loop src wallet_address max_records
                   (all ++ data) (off + limit)%Z (sent ++ [params])
        end }.
Proof.
  apply andb_prop in Hcond as [_ Hcond]. apply Z.leb_le in Hcond.
  unfold limit. lia.
Qed.

Definition get_all_user_activity (src : source) (wallet_address : string)
    (max_records : nat) : fetched :=
  fetch_loop src wallet_address max_records [] 0%Z [].

(** ** Persistence Gate: [save_market_to_csv] *)

(** Exceptions that escape the pipeline.  [ValueError] also stands for the
    [OverflowError] that [datetime.fromtimestamp] raises far outside its
    range: nothing in the pipeline catches either. *)
Inductive exn := ValueError | TypeError | OSError.

#[global] Instance exn_eq_dec : EqDecision exn.
Proof. solve_decision. Defined.

Inductive result (A : Type) :=
  | Ok (a : A)
  | Err (e : exn).
Arguments Ok {A} a.
Arguments Err {A} e.

#[global] Instance result_bind : MBind result := λ A B f r,
  match r with
  | Ok a => f a
  | Err e => Err e
  end.

#[global] Instance result_fmap : FMap result := λ A B f r,
  match r with
  | Ok a => Ok (f a)
  | Err e => Err e
  end.

(** *** Text of values *)

Definition dquote : ascii := "034"%char.
Definition cr : ascii := "013"%char.
Definition lf : ascii := "010"%char.

(** [str(v)], as used by the f-string that names the file. *)
Definition py_str (v : scalar) : string :=
  match v with
  | SNull => "None"
  | SInt z => pretty z
  | SStr s => s
  end.

(** The text [csv.writer] gives a cell: [None] becomes the empty string, a
    string is itself, anything else goes through [str]. *)
Definition csv_str (v : scalar) : string :=
  match v with
  | SNull => ""
  | SInt z => pretty z
  | SStr s => s
  end.

(** *** [int(...)] *)

(** White space as [str.strip], [str.split] and [str.isspace] see it on
    ASCII text: tab to carriage return, the four separators 28 to 31, and
    the space. *)
Definition is_space (c : ascii) : bool :=
  let n := nat_of_ascii c in
  ((9 <=? n) && (n <=? 13)) || ((28 <=? n) && (n <=? 32)).

(** White space as [int] skips it on ASCII text: tab to carriage return and
    the space (the separators 28 to 31 are not skipped, and make [int]
    raise). *)
Definition is_int_space (c : ascii) : bool :=
  let n := nat_of_ascii c in
  ((9 <=? n) && (n <=? 13)) || (n =? 32).

Definition is_digit (c : ascii) : bool :=
  let n := nat_of_ascii c in (48 <=? n) && (n <=? 57).

Definition digit_val (c : ascii) : Z := Z.of_nat (nat_of_ascii c - 48).

Fixpoint skip_space (s : string) : string :=
  match s with
  | String c s' => if is_space c then skip_space s' else s
  | EmptyString => EmptyString
  end.

Fixpoint skip_int_space (s : string) : string :=
  match s with
  | String c s' => if is_int_space c then skip_int_space s' else s
  | EmptyString => EmptyString
  end.

Fixpoint all_int_space (s : string) : bool :=
  match s with
  | String c s' => is_int_space c && all_int_space s'
  | EmptyString => true
  end.

(** [sys.get_int_max_str_digits()]: a text of more digits is refused. *)
Definition max_str_digits : nat := 4300.

(** Decimal digits, with single underscores allowed between digits, up to
    trailing white space; [room] is the number of digits still allowed. *)
Fixpoint parse_digits (s : string) (acc : Z) (after_digit : bool) (room : nat)
    : option Z :=
  match s with
  | EmptyString => if after_digit then Some acc else None
  | String c s' =>
      if is_digit c then
        match room with
        | S room' => parse_digits s' (10 * acc + digit_val c)%Z true room'
        | 0 => None
        end
      else if Ascii.eqb c "_" then
        if after_digit then parse_digits s' acc false room else None
      else if is_int_space c then
        if after_digit && all_int_space s' then Some acc else None
      else None
  end.

(** [int(s)] for an ASCII string [s]: optional white space, an optional
    sign, decimal digits, optional white space.  Digits and white space
    outside ASCII are not modelled: a string that holds a character outside
    ASCII is refused here. *)
Definition parse_int (s : string) : option Z :=
  match skip_int_space s with
  | String "-" s' => Z.opp <$> parse_digits s' 0 false max_str_digits
  | String "+" s' => parse_digits s' 0 false max_str_digits
  | s' => parse_digits s' 0 false max_str_digits
  end.

Definition py_int (v : scalar) : result Z :=
  match v with
  | SNull => Err TypeError
  | SInt z => Ok z
  | SStr s => match parse_int s with Some z => Ok z | None => Err ValueError end
  end.

(** *** [datetime.fromtimestamp(..., tz=timezone.utc).strftime(...)] *)

Record datetime := DateTime {
  year : Z; month : Z; day : Z;
  hour : Z; minute : Z; second : Z
}.

(** Proleptic Gregorian date of a day number counted from 1970-01-01. *)
Definition civil_from_days (days : Z) : Z * Z * Z :=
  let z := (days + 719468)%Z in
  let era := (z / 146097)%Z in
  let doe := (z - era * 146097)%Z in
  let yoe := ((doe - doe / 1460 + doe / 36524 - doe / 146096) / 365)%Z in
  let doy := (doe - (365 * yoe + yoe / 4 - yoe / 100))%Z in
  let mp := ((5 * doy + 2) / 153)%Z in
  let d := (doy - (153 * mp + 2) / 5 + 1)%Z in
  let m := (if (mp <? 10)%Z then mp + 3 else mp - 9)%Z in
  let y := (yoe + era * 400 + (if (m <=? 2)%Z then 1 else 0))%Z in
  (y, m, d).

(** [datetime] supports the years 1 to 9999 only. *)
Definition fromtimestamp_utc (t : Z) : result datetime :=
  let '(y, m, d) := civil_from_days (t / 86400) in
  let s := (t mod 86400)%Z in
  if ((1 <=? y) && (y <=? 9999))%Z then
    Ok {| year := y; month := m; day := d;
          hour := s / 3600; minute := s mod 3600 / 60; second := s mod 60 |}
  else Err ValueError.

Definition digit_char (d : Z) : ascii := ascii_of_nat (48 + Z.to_nat d).

Definition pad2 (n : Z) : string :=
  String (digit_char (n / 10)) (String (digit_char (n mod 10)) "").

(** [strftime('%Y-%m-%d %H:%M:%S')].  The C library formats [%Y]; glibc,
    on which the program runs (its paths are under /root), writes the year
    in decimal without padding, so a year below 1000 has fewer than four
    digits. *)
Definition strftime (dt : datetime) : string :=
  pretty (year dt) +:+ "-" +:+ pad2 (month dt) +:+ "-" +:+ pad2 (day dt)
  +:+ " " +:+ pad2 (hour dt) +:+ ":" +:+ pad2 (minute dt)
  +:+ ":" +:+ pad2 (second dt).

(** The value under 'datetime' in [row]. *)
Definition datetime_cell (a : activity) : result string :=
  if truthy (get a "timestamp") then
    t ← py_int (get_or a "timestamp" (SInt 0));
    dt ← fromtimestamp_utc t;
    Ok (strftime dt)
  else Ok "".

(** *** [csv.DictWriter] with the default (excel) dialect *)

Definition fieldnames : list string :=
  [ "timestamp"; "datetime"; "type"; "side"; "proxyWallet";
    "conditionId"; "asset"; "outcomeIndex"; "outcome";
    "size"; "usdcSize"; "price"; "transactionHash";
    "title"; "slug"; "eventSlug"; "icon";
    "name"; "pseudonym"; "bio"; "profileImage"; "profileImageOptimized" ].

(** The [row] dict, in the order its entries are evaluated. *)
Definition make_row (a : activity) : result (list (string * scalar)) :=
  let timestamp := get_or a "timestamp" (SStr "") in
  dt ← datetime_cell a;
  Ok [ ("timestamp", timestamp);
       ("datetime", SStr dt);
       ("type", get_or a "type" (SStr ""));
       ("side", get_or a "side" (SStr ""));
       ("proxyWallet", get_or a "proxyWallet" (SStr ""));
       ("conditionId", get_or a "conditionId" (SStr ""));
       ("asset", get_or a "asset" (SStr ""));
       ("outcomeIndex", get_or a "outcomeIndex" (SStr ""));
       ("outcome", get_or a "outcome" (SStr ""));
       ("size", get_or a "size" (SStr ""));
       ("usdcSize", get_or a "usdcSize" (SStr ""));
       ("price", get_or a "price" (SStr ""));
       ("transactionHash", get_or a "transactionHash" (SStr ""));
       ("title", get_or a "title" (SStr ""));
       ("slug", get_or a "slug" (SStr ""));
       ("eventSlug", get_or a "eventSlug" (SStr ""));
       ("icon", get_or a "icon" (SStr ""));
       ("name", get_or a "name" (SStr ""));
       ("pseudonym", get_or a "pseudonym" (SStr ""));
       ("bio", get_or a "bio" (SStr ""));
       ("profileImage", get_or a "profileImage" (SStr ""));
       ("profileImageOptimized", get_or a "profileImageOptimized" (SStr "")) ].

(** [row.get(key, '')] on the row dict. *)
Fixpoint row_get (row : list (string * scalar)) (key : string) : scalar :=
  match row with
  | [] => SStr ""
  | (k, v) :: rest => if String.eqb k key then v else row_get rest key
  end.

(** A cell is quoted when it holds the delimiter, the quote character or a
    character of the line terminator; quote characters inside are doubled. *)
Definition special (c : ascii) : bool :=
  Ascii.eqb c "," || Ascii.eqb c dquote || Ascii.eqb c cr || Ascii.eqb c lf.

Fixpoint has_special (s : string) : bool :=
  match s with
  | EmptyString => false
  | String c s' => special c || has_special s'
  end.

Fixpoint double_quotes (s : string) : string :=
  match s with
  | EmptyString => EmptyString
  | String c s' =>
      if Ascii.eqb c dquote then String c (String c (double_quotes s'))
      else String c (double_quotes s')
  end.

Definition csv_field (s : string) : string :=
  if has_special s
  then String dquote (double_quotes s) +:+ String dquote ""
  else s.

Definition line_terminator : string := String cr (String lf "").

(** One record of at least two cells, as [writer.writerow] emits it. *)
Definition csv_record (cells : list string) : string :=
  String.concat "," (csv_field <$> cells) +:+ line_terminator.

Definition writeheader : string := csv_record fieldnames.

Definition writerow (row : list (string * scalar)) : string :=
  csv_record ((λ key, csv_str (row_get row key)) <$> fieldnames).

(** The line of one activity in the file. *)
Definition csv_line (a : activity) : result string :=
  row ← make_row a; Ok (writerow row).

(** The body of [with open(...) as f]: what has been written to [f] when the
    block is left, and the exception that left it, if any. *)
Fixpoint write_rows (activities : list activity) (written : string)
    : string * option exn :=
  match activities with
  | [] => (written, None)
  | a :: rest =>
      match csv_line a with
      | Ok line => write_rows rest (written +:+ line)
      | Err e => (written, Some e)
      end
  end.

(** *** The destination *)

(** The part of the file system the Gate touches: the directories made, the
    content of each file, and the paths at which opening a file for writing
    fails. *)
Record world := World {
  dirs : gset string;
  files : gmap string string;
  unwritable : gset string
}.

Fixpoint ends_with_sep (s : string) : bool :=
  match s with
  | EmptyString => false
  | String c EmptyString => Ascii.eqb c "/"
  | String _ s' => ends_with_sep s'
  end.

(** [os.path.join(a, b)] on POSIX. *)
Definition path_join (a b : string) : string :=
  match b with
  | String "/" _ => b
  | _ =>
      if String.eqb a "" || ends_with_sep a then a +:+ b
      else a +:+ "/" +:+ b
  end.

(** [os.makedirs(output_dir, exist_ok=True)]. *)
Definition makedirs (output_dir : string) (w : world) : world :=
  {| dirs := {[output_dir]} ∪ dirs w; files := files w; unwritable := unwritable w |}.

Definition write_file (path content : string) (w : world) : world :=
  {| dirs := dirs w; files := <[path := content]> (files w); unwritable := unwritable w |}.

(** What [save_market_to_csv] returns. *)
Inductive saved :=
  | RNone
  | RSkipped (slug : scalar) (trades : nat)
  | RPath (filepath : string).

Definition is_trade (a : activity) : bool :=
  bool_decide (get a "type" = SStr "TRADE").

Definition trade_count (activities : list activity) : nat :=
  length (filter (λ a, is_trade a = true) activities).

Definition csv_path (market_slug : scalar) (output_dir : string) : string :=
  path_join output_dir (py_str market_slug +:+ ".csv").

Definition save_market_to_csv (market_slug : scalar) (activities : list activity)
    (output_dir : string) (w : world) : world * result saved :=
  match activities with
  | [] => (w, Ok RNone)
  | _ =>
      if trade_count activities <? 30 then
        (w, Ok (RSkipped market_slug (trade_count activities)))
      else
        let w := makedirs output_dir w in
        let filepath := csv_path market_slug output_dir in
        if decide (filepath ∈ unwritable w) then (w, Err OSError)
        else
          match write_rows activities writeheader with
          | (content, None) => (write_file filepath content w, Ok (RPath filepath))
          | (content, Some e) => (write_file filepath content w, Err e)
          end
  end.

(** ** Pipeline Orchestrator: [process_wallet] *)

Definition OUTPUT_ROOT : string := "/root/mcollect/data".

(** What the run reports at its end. *)
Record summary := Summary {
  saved_count : nat;
  skipped_markets : list (scalar * nat)
}.

(** [for market_slug, market_activities in markets.items()]. *)
Fixpoint save_loop (markets : list (scalar * list activity)) (output_dir : string)
    (w : world) (acc : summary) : world * result summary :=
  match markets with
  | [] => (w, Ok acc)
  | (market_slug, market_activities) :: rest =>
      match save_market_to_csv market_slug market_activities output_dir w with
      | (w', Err e) => (w', Err e)
      | (w', Ok (RSkipped slug trades)) =>
          save_loop rest output_dir w'
            {| saved_count := saved_count acc;
               skipped_markets := skipped_markets acc ++ [(slug, trades)] |}
      | (w', Ok (RPath _)) =>
          save_loop rest output_dir w'
            {| saved_count := S (saved_count acc);
               skipped_markets := skipped_markets acc |}
      | (w', Ok RNone) => save_loop rest output_dir w' acc
      end
  end.

(** How a run of [process_wallet] ends: with "No activities found", with the
    summary, or with an exception that escapes it. *)
Inductive run :=
  | NoActivities
  | Completed (s : summary)
  | Escaped (e : exn).

Definition process_wallet (src : source) (wallet_name wallet_address : string)
    (max_records : nat) (w : world) : world * run :=
  let activities := all_activities (get_all_user_activity src wallet_address max_records) in
  match activities with
  | [] => (w, NoActivities)
  | _ =>
      let activities := remove_duplicates activities in
      let markets := group_by_market activities in
      let output_dir := path_join OUTPUT_ROOT wallet_name in
      match save_loop markets output_dir w (Summary 0 []) with
      | (w', Ok s) => (w', Completed s)
      | (w', Err e) => (w', Escaped e)
      end
  end.

(** ** Sample data *)

Definition record_of (entries : list (string * scalar)) : activity :=
  {| fields := list_to_map entries; market := None |}.

Definition trade (slug : string) (t : Z) (tx : string) : activity :=
  record_of [("timestamp", SInt t); ("type", SStr "TRADE"); ("side", SStr "BUY");
             ("slug", SStr slug); ("transactionHash", SStr tx)].

Definition split_a : activity :=
  record_of [("timestamp", SInt 1700000000); ("type", SStr "SPLIT"); ("slug", SStr "market-a")].
Definition split_b : activity :=
  record_of [("timestamp", SInt 1700000000); ("type", SStr "SPLIT"); ("slug", SStr "market-b")].

(** A source whose every page is full. *)
Definition full_page : list activity := replicate 500 split_a.
Definition always_full : source := λ _, Json full_page.

Definition trade_1 : activity := trade "market-a" 1700000300 "0xaa".
Definition trade_1_again : activity := trade "market-a" 1700000100 "0xaa".
Definition no_slug : activity :=
  record_of [("timestamp", SInt 1700000200); ("type", SStr "MERGE")].

(** [n] trades of one market, each with its own transaction hash. *)
Definition trades_of (slug : string) (n : nat) : list activity :=
  (λ i, trade slug (1700000000 + Z.of_nat i) ("0x" +:+ slug +:+ pretty i))
    <$> seq 0 n.

Definition bad_timestamp : activity :=
  record_of [("timestamp", SStr "yesterday"); ("type", SStr "TRADE");
             ("slug", SStr "market-a"); ("transactionHash", SStr "0xbad")].

Definition epoch_zero : activity :=
  record_of [("timestamp", SInt 0); ("type", SStr "TRADE");
             ("slug", SStr "market-a"); ("transactionHash", SStr "0xzero")].

(** A wallet with 30 trades in each of two markets, served as one page. *)
Definition two_markets : source := λ req,
  if (req_offset req =? 0)%Z
  then Json (trades_of "market-a" 30 ++ trades_of "market-b" 30)
  else Json [].

Definition empty_world : world :=
  {| dirs := ∅; files := ∅; unwritable := ∅ |}.

(** A destination in which the file of market-a cannot be opened. *)
Definition locked_world : world :=
  {| dirs := ∅; files := ∅;
     unwritable := {[ "/root/mcollect/data/alice/market-a.csv" ]} |}.

(** A source with pages of 500, 500 and 200 records. *)
Definition three_pages : source := λ req,
  if (req_offset req =? 0)%Z then Json (replicate 500 split_a)
  else if (req_offset req =? 500)%Z then Json (replicate 500 split_b)
  else if (req_offset req =? 1000)%Z then Json (replicate 200 split_a)
  else Json [].

(** A source that ignores the page size asked for. *)
Definition oversized : source := λ _, Json (replicate 1000 split_a).

(** A budget above the pagination ceiling. *)
Definition large_budget : nat := 40 * 500.

(** ** Vocabulary of the statements *)

(** The requests for the first [k] pages of a wallet. *)
Definition page_requests (wallet : string) (k : nat) : list request :=
  (λ i, Request wallet limit (limit * Z.of_nat i)) <$> seq 0 k.

(** Every page of the source is a full page of 500 records. *)
Definition full_pages (src : source) : Prop :=
  ∀ req, ∃ data, src req = Json data ∧ length data = 500.


(** "Once the offset has reached 10,000 no further page request is issued":
    no request is ever sent with an offset of 10,000 or more. *)
Definition stops_on_reaching_ceiling : Prop :=
  ∀ src wallet max_records r,
    r ∈ requests (get_all_user_activity src wallet max_records) →
    (req_offset r < 10000)%Z.

(** The distinct elements of a list, in the order of their first occurrence. *)
Fixpoint first_occurrences {A} `{EqDecision A} (l : list A) : list A :=
  match l with
  | [] => []
  | x :: l' => x :: filter (λ y, y ≠ x) (first_occurrences l')
  end.

(** The group keys of a batch, one per record that has one. *)
Definition group_keys (activities : list activity) : list scalar :=
  filter (λ k, truthy k = true) (slug_of <$> activities).

(** What holds of the loop state once the records [past] are processed. *)
Record dedup_inv (past : list activity) (st : dedup_state) : Prop := {
  inv_seen : ∀ k, k ∈ seen st ↔ k ∈ unique_key <$> past;
  inv_sublist : unique_activities st `sublist_of` past;
  inv_first : ∀ k,
    filter (λ a, unique_key a = k) (unique_activities st)
    = take 1 (filter (λ a, unique_key a = k) past)
}.

(** The dict built from a batch: one entry per group key, in the order of
    first occurrence, holding the records of that key in batch order. *)
Definition groups_of (activities : list activity) : list (scalar * list activity) :=
  (λ k, (k, filter (λ a, slug_of a = k) activities))
    <$> first_occurrences (group_keys activities).

(** The record can be written as a line: building its row raises nothing. *)
Definition renders (a : activity) : bool :=
  match csv_line a with Ok _ => true | Err _ => false end.

Definition line_of (a : activity) : string :=
  match csv_line a with Ok line => line | Err _ => "" end.

(** The header line followed by one line per record, in order. *)
Definition csv_text (activities : list activity) : string :=
  writeheader +:+ foldr String.append "" (line_of <$> activities).

(** "A malformed timestamp is rendered as an empty string and the row is
    still written": for a timestamp that is absent or that [int] rejects. *)
Definition malformed_timestamp_recovered : Prop :=
  ∀ a, (fields a !! "timestamp" = None
        ∨ ∃ e, py_int (get a "timestamp") = Err e) →
       datetime_cell a = Ok "" ∧ ∃ line, csv_line a = Ok line.

(** "A parseable epoch timestamp is formatted in UTC." *)
Definition parseable_timestamp_formatted : Prop :=
  ∀ a t dt, py_int (get a "timestamp") = Ok t → fromtimestamp_utc t = Ok dt →
            datetime_cell a = Ok (strftime dt).

(** "One group's write failure does not keep the other groups from being
    persisted": every group of the run that meets the threshold and whose
    own file can be written has its file once the run is over. *)
Definition write_failures_isolated : Prop :=
  ∀ src wallet_name wallet_address max_records w market_slug market_activities,
    let batch := all_activities
                   (get_all_user_activity src wallet_address max_records) in
    let output_dir := path_join OUTPUT_ROOT wallet_name in
    (market_slug, market_activities) ∈ group_by_market (remove_duplicates batch) →
    30 ≤ trade_count market_activities →
    forallb renders market_activities = true →
    csv_path market_slug output_dir ∉ unwritable w →
    files (process_wallet src wallet_name wallet_address max_records w).1
      !! csv_path market_slug output_dir
    = Some (csv_text market_activities).

(** The records a response contributes to the batch. *)
Definition page_data (r : response) : list activity :=
  match r with
  | RequestException => []
  | Json data => data
  end.

(** A source whose first page is full and whose second request fails. *)
Definition fails_after_one : source := λ req,
  if (req_offset req =? 0)%Z then Json full_page else RequestException.

(** A wallet with 30 trades in one market and 5 in another. *)
Definition mixed_markets : source := λ req,
  if (req_offset req =? 0)%Z
  then Json (trades_of "market-a" 30 ++ trades_of "market-b" 5)
  else Json [].

(** ** Wallet management: [ensure_wallet_file], [load_wallets],
    [append_wallet] *)

(** A Python dict from names to addresses, in insertion order. *)
Definition wallets := list (string * string).

(** [wallets[name] = addr]: an existing name keeps its place and gets the
    new address, a new name goes last. *)
Fixpoint wallets_set (name addr : string) (ws : wallets) : wallets :=
  match ws with
  | [] => [(name, addr)]
  | (n, a) :: rest =>
      if String.eqb n name then (n, addr) :: rest
      else (n, a) :: wallets_set name addr rest
  end.

(** [wallets.get(name)]. *)
Fixpoint wallets_get (name : string) (ws : wallets) : option string :=
  match ws with
  | [] => None
  | (n, a) :: rest => if String.eqb n name then Some a else wallets_get name rest
  end.

(** *** String methods (on ASCII text) *)

(** [s.rstrip()]. *)
Fixpoint rstrip (s : string) : string :=
  match s with
  | EmptyString => EmptyString
  | String c s' =>
      match rstrip s' with
      | EmptyString => if is_space c then EmptyString else String c EmptyString
      | r => String c r
      end
  end.

(** [s.strip()]. *)
Definition strip (s : string) : string := rstrip (skip_space s).

(** [s.startswith("#")]. *)
Definition starts_with_hash (s : string) : bool :=
  match s with
  | String "#" _ => true
  | _ => false
  end.

(** [s.split(",", 1)] when ["," in s]: the text before the first comma and
    the text after it; [None] when there is no comma. *)
Fixpoint split_comma (s : string) : option (string * string) :=
  match s with
  | EmptyString => None
  | String c s' =>
      if Ascii.eqb c "," then Some (EmptyString, s')
      else match split_comma s' with
           | Some (before, after) => Some (String c before, after)
           | None => None
           end
  end.

(** [s.split()]: the maximal runs of characters that are not white space. *)
Fixpoint split_space (s : string) : list string :=
  match s with
  | EmptyString => []
  | String c s' =>
      if is_space c then split_space s'
      else
        match s' with
        | EmptyString => [String c EmptyString]
        | String c' _ =>
            if is_space c' then String c EmptyString :: split_space s'
            else match split_space s' with
                 | word :: words => String c word :: words
                 | [] => [String c EmptyString]
                 end
        end
  end.

(** [for line in f] on a file opened in text mode: the content cut after
    each line break, where \r\n and a lone \r are read as \n. *)
Fixpoint read_lines (content : string) : list string :=
  match content with
  | EmptyString => []
  | String c rest =>
      if Ascii.eqb c lf then String lf EmptyString :: read_lines rest
      else if Ascii.eqb c cr then
        String lf EmptyString
        :: match rest with
           | String c' rest' =>
               if Ascii.eqb c' lf then read_lines rest' else read_lines rest
           | EmptyString => []
           end
      else
        match read_lines rest with
        | line :: lines => String c line :: lines
        | [] => [String c EmptyString]
        end
  end.

(** The body of the loop of [load_wallets] up to the dict update: the name
    and address a line gives, if any. *)
Definition parse_wallet_line (line : string) : option (string * string) :=
  let line := strip line in
  if String.eqb line "" || starts_with_hash line then None
  else
    let fields :=
      match split_comma line with
      | Some (name, addr) => Some (name, addr)
      | None =>
          match split_space line with
          | name :: addr :: _ => Some (name, addr)
          | _ => None
          end
      end in
    match fields with
    | Some (name, addr) =>
        let name := strip name in
        let addr := strip addr in
        if negb (String.eqb name "") && negb (String.eqb addr "")
        then Some (name, addr) else None
    | None => None
    end.

Definition load_step (ws : wallets) (line : string) : wallets :=
  match parse_wallet_line line with
  | Some (name, addr) => wallets_set name addr ws
  | None => ws
  end.

(** The dict [load_wallets] builds from the content of the file. *)
Definition parse_wallets (content : string) : wallets :=
  foldl load_step [] (read_lines content).

(** [f"{name},{addr}\n"]. *)
Definition wallet_line (name addr : string) : string :=
  name +:+ "," +:+ addr +:+ String lf EmptyString.

(** [os.path.exists(path)]. *)
Definition path_exists (path : string) (w : world) : bool :=
  bool_decide (is_Some (files w !! path)) || bool_decide (path ∈ dirs w).

Definition ensure_wallet_file (file_path : string) (default_wallets : wallets)
    (w : world) : world * result unit :=
  if path_exists file_path w then (w, Ok ())
  else if decide (file_path ∈ unwritable w) then (w, Err OSError)
  else
    (write_file file_path
       (foldr String.append "" ((λ e, wallet_line e.1 e.2) <$> default_wallets)) w,
     Ok ()).

(** Opening a path that is a directory raises (an [OSError]). *)
Definition load_wallets (file_path : string) (default_wallets : wallets)
    (w : world) : world * result wallets :=
  match ensure_wallet_file file_path default_wallets w with
  | (w, Err e) => (w, Err e)
  | (w, Ok _) =>
      match files w !! file_path with
      | Some content => (w, Ok (parse_wallets content))
      | None => (w, Err OSError)
      end
  end.

(** [open(file_path, "a")] makes the file when there is none. *)
Definition append_wallet (file_path name address : string) (w : world)
    : world * result unit :=
  if bool_decide (file_path ∈ unwritable w) || bool_decide (file_path ∈ dirs w)
  then (w, Err OSError)
  else
    (write_file file_path
       (default "" (files w !! file_path) +:+ wallet_line name address) w,
     Ok ()).

Definition WALLET_FILE : string := "/root/mcollect/wallets.txt".

Definition DEFAULT_WALLETS : wallets :=
  [ ("gabagool22", "0x6031b6eed1c97e853c6e0f03ad3ce3529351f96d");
    ("wallet2", "0x336848a1a1cb00348020c9457676f34d882f21cd");
    ("account88888", "0x7f69983eb28245bba0d5083502a78744a8f66162");
    ("wallet3", "0x63ce342161250d705dc0b16df89036c8e5f9ba9a");
    ("distinct-baguette", "0xe00740bce98a594e26861838885ab310ec3b548c");
    ("sherlockhomie", "0xd44e29936409019f93993de8bd603ef6cb1bb15e");
    ("kingofcoinflips", "0xe9c6312464b52aa3eff13d822b003282075995c9");
    ("BoshBashBish", "0x29bc82f761749e67fa00d62896bc6855097b683c");
    ("wallet4", "0xf247584e41117bbbe4cc06e4d2c95741792a5216");
    ("wallet5", "0x1ff49fdcb6685c94059b65620f43a683be0ce7a5");
    ("gab_inv", "0xf444220e8d32f456c39b6b727e7bb5bc41d8c970") ].

Fixpoint string_forall (P : ascii → bool) (s : string) : bool :=
  match s with
  | EmptyString => true
  | String c s' => P c && string_forall P s'
  end.

(** Text a line of the wallet file can carry in one piece: ASCII, not empty,
    no white space at either end, no line break inside. *)
Definition clean_text (s : string) : bool :=
  negb (String.eqb s "")
  && String.eqb (skip_space s) s && String.eqb (rstrip s) s
  && string_forall (λ c, negb (Ascii.eqb c lf) && negb (Ascii.eqb c cr)
                         && (nat_of_ascii c <? 128)) s.

(** A name that [load_wallets] reads back as written: clean, without a
    comma, and not starting like a comment. *)
Definition clean_name (s : string) : bool :=
  clean_text s && string_forall (λ c, negb (Ascii.eqb c ",")) s
  && negb (starts_with_hash s).

Definition clean_entry (e : string * string) : bool :=
  clean_name e.1 && clean_text e.2.

(** The content is empty or its last character is a line feed. *)
Definition newline_terminated (content : string) : Prop :=
  content = "" ∨ ∃ body, content = body +:+ String lf "".

(** What [ensure_wallet_file] writes: one line per entry. *)
Definition wallets_text (ws : wallets) : string :=
  foldr String.append "" ((λ e, wallet_line e.1 e.2) <$> ws).

Definition commented_file : string :=
  "# wallets" +:+ String lf "" +:+ "alice,0xa1" +:+ String lf "".

(** The budget every caller passes: [max_records=10000]. *)
Definition default_budget : nat := 20 * 500.

(** ** Interactive functions: [add_new_wallet_interactive],
    [select_wallet_menu] *)

(** Standard input is the list of lines still to be typed, each without its
    line feed; [input()] takes the first and raises [EOFError] when there is
    none.  What is printed is left out. *)
Inductive prompted (A : Type) :=
  | Answered (a : A) (stdin : list string) (w : world)
  | EndOfInput
  | Failed (e : exn) (w : world).
Arguments Answered {A} a stdin w.
Arguments EndOfInput {A}.
Arguments Failed {A} e w.

Definition io (A : Type) : Type := list string → world → prompted A.

#[global] Instance io_ret : MRet io := λ A a stdin w, Answered a stdin w.

#[global] Instance io_bind : MBind io := λ A B f m stdin w,
  match m stdin w with
  | Answered a stdin' w' => f a stdin' w'
  | EndOfInput => EndOfInput
  | Failed e w' => Failed e w'
  end.

Definition input : io string := λ stdin w,
  match stdin with
  | line :: rest => Answered line rest w
  | [] => EndOfInput
  end.

(** A call that works on the file system only. *)
Definition on_world {A} (f : world → world * result A) : io A := λ stdin w,
  match f w with
  | (w', Ok a) => Answered a stdin w'
  | (w', Err e) => Failed e w'
  end.

(** [name in wallets]. *)
Definition wallets_has (name : string) (ws : wallets) : bool :=
  bool_decide (name ∈ ws.*1).

Definition lower_char (c : ascii) : ascii :=
  let n := nat_of_ascii c in
  if (65 <=? n) && (n <=? 90) then ascii_of_nat (n + 32) else c.

(** [s.lower()] on ASCII text. *)
Fixpoint lower (s : string) : string :=
  match s with
  | EmptyString => EmptyString
  | String c s' => String (lower_char c) (lower s')
  end.

(** [answer in ("y", "yes")]. *)
Definition is_yes (answer : string) : bool :=
  String.eqb answer "y" || String.eqb answer "yes".

(** [address.startswith("0x")]. *)
Definition starts_with_0x (s : string) : bool :=
  match s with
  | String "0" (String "x" _) => true
  | _ => false
  end.

(** [input(...).strip().lower() in ("y", "yes")]. *)
Definition confirmed : io bool :=
  answer ← input; mret (is_yes (lower (strip answer))).

(** [input("\nPress Enter to continue..."); return wallets]. *)
Definition press_enter_return (ws : wallets) : io wallets :=
  _ ← input; mret ws.

Definition add_new_wallet_interactive (ws : wallets) (wallet_file : string)
    : io wallets :=
  name ← input;
  let name := strip name in
  if String.eqb name "" then press_enter_return ws
  else
    overwrite ← (if wallets_has name ws then confirmed else mret true);
    if negb overwrite then press_enter_return ws
    else
      address ← input;
      let address := strip address in
      if String.eqb address "" then press_enter_return ws
      else
        anyway ← (if negb (starts_with_0x address)
                      || (String.length address <? 10)
                   then confirmed else mret true);
        if negb anyway then press_enter_return ws
        else
          _ ← on_world (append_wallet wallet_file name address);
          press_enter_return (wallets_set name address ws).

(** The loop of [select_wallet_menu]: one line is read per turn.  The
    result is [None] for "back to main menu", or the wallet chosen. *)
Fixpoint select_wallet_menu (ws : wallets) (stdin : list string)
    : option (option (string * string) * list string) :=
  match stdin with
  | [] => None
  | line :: rest =>
      let choice := strip line in
      if String.eqb choice "" then select_wallet_menu ws rest
      else
        match parse_int choice with
        | Some num =>
            if (num =? Z.of_nat (length ws) + 1)%Z then Some (None, rest)
            else if (1 <=? num)%Z && (num <=? Z.of_nat (length ws))%Z
              then Some (ws !! Z.to_nat (num - 1), rest)
            else select_wallet_menu ws rest
        | None => select_wallet_menu ws rest
        end
  end.

(** The dict in memory is what the wallet file reads as, and the file can
    take another line. *)
Definition in_sync (wallet_file : string) (ws : wallets) (w : world) : Prop :=
  ∃ content, files w !! wallet_file = Some content
             ∧ newline_terminated content
             ∧ parse_wallets content = ws.

(** ** [select_market_menu] *)

(** [s.endswith(suffix)]. *)
Definition ends_with (suffix s : string) : bool :=
  (String.length suffix <=? String.length s)
  && String.eqb
       (String.substring (String.length s - String.length suffix)
          (String.length suffix) s)
       suffix.

(** [l[i]]: a negative index counts from the end; [None] stands for
    [IndexError]. *)
Definition py_index {A} (l : list A) (i : Z) : option A :=
  if (0 <=? i)%Z then l !! Z.to_nat i
  else if (0 <=? Z.of_nat (length l) + i)%Z
    then l !! Z.to_nat (Z.of_nat (length l) + i)
  else None.

(** How the menu ends: with the path of a market file, with "back", with an
    [IndexError], or with [EOFError] when the input runs out. *)
Inductive picked :=
  | Picked (path : string) (rest : list string)
  | WentBack (rest : list string)
  | OutOfRange
  | NoMoreInput.

(** The [while True] loop; one line is read per turn. *)
Fixpoint select_market_loop (blogger_dir : string) (markets : list string)
    (max_pages page : Z) (stdin : list string) : picked :=
  match stdin with
  | [] => NoMoreInput
  | line :: rest =>
      let start_idx := (page * 20)%Z in
      let end_idx := Z.min (start_idx + 20) (Z.of_nat (length markets)) in
      let choice := lower (strip line) in
      if String.eqb choice "n" && (page <? max_pages - 1)%Z then
        select_market_loop blogger_dir markets max_pages (page + 1) rest
      else if String.eqb choice "p" && (0 <? page)%Z then
        select_market_loop blogger_dir markets max_pages (page - 1) rest
      else if String.eqb choice "b" then WentBack rest
      else
        match parse_int choice with
        | Some num =>
            if (1 <=? num)%Z && (num <=? end_idx - start_idx)%Z then
              match py_index markets (start_idx + num - 1) with
              | Some market => Picked (path_join blogger_dir market) rest
              | None => OutOfRange
              end
            else select_market_loop blogger_dir markets max_pages page rest
        | None => select_market_loop blogger_dir markets max_pages page rest
        end
  end.

(** [listing] is what [os.listdir(blogger_dir)] gives. *)
Definition select_market_menu (blogger : string) (listing : list string)
    (stdin : list string) : picked :=
  let blogger_dir := path_join OUTPUT_ROOT blogger in
  let markets := filter (λ f, ends_with ".csv" f = true) listing in
  match markets with
  | [] =>
      match stdin with
      | [] => NoMoreInput
      | _ :: rest => WentBack rest
      end
  | _ =>
      let markets := merge_sort String.le markets in
      let max_pages := ((Z.of_nat (length markets) - 1) / 20 + 1)%Z in
      select_market_loop blogger_dir markets max_pages 0 stdin
  end.

(** A directory of 25 market files and one plot. *)
Definition sample_listing : list string :=
  "notes.png" :: ((λ i, "market-" +:+ pretty i +:+ ".csv") <$> seq 10 25).

(** A record stamped in milliseconds instead of seconds. *)
Definition millis_timestamp : activity :=
  record_of [("timestamp", SInt 1700000000000); ("type", SStr "TRADE");
             ("slug", SStr "market-a"); ("transactionHash", SStr "0xms")].

(** Division and remainder by constants, as linear facts for [lia]. *)
Ltac euclid := Z.to_euclidean_division_equations.

(** * Properties *)

(** ** The Fetcher's loop *)

Lemma fetch_loop_eq src wallet max_records all off sent :
  fetch_loop src wallet max_records all off sent =
  if (length all <? max_records) && (off <=? 10000)%Z then
    let params := Request wallet limit off in
    match src params with
    | RequestException => Fetched all (sent ++ [params])
    | Json data =>
        if length data =? 0 then Fetched all (sent ++ [params])
        else if (Z.of_nat (length data) <? limit)%Z
          then Fetched (all ++ data) (sent ++ [params])
        else fetch_loop src wallet max_records
               (all ++ data) (off + limit)%Z (sent ++ [params])
    end
  else Fetched all sent.
Proof.
  rewrite fetch_loop_equation_1.
  destruct (inspect ((length all <? max_records) && (off <=? 10000)%Z))
    as [b Hb].
  destruct b; simpl; rewrite Hb; reflexivity.
Qed.

(** One turn of the loop on a page of at least [limit] records. *)
Lemma fetch_loop_continue src wallet max_records all off sent data :
  length all < max_records → (off ≤ 10000)%Z →
  src (Request wallet 500 off) = Json data → 500 ≤ length data →
  fetch_loop src wallet max_records all off sent =
  fetch_loop src wallet max_records (all ++ data) (off + 500)%Z
    (sent ++ [Request wallet 500 off]).
Proof.
  intros Hlen Hoff Hsrc Hdata. rewrite fetch_loop_eq. cbv zeta. unfold limit.
  apply Nat.ltb_lt in Hlen as ->. apply Z.leb_le in Hoff as ->. simpl andb.
  rewrite Hsrc.
  replace (length data =? 0) with false by (symmetry; apply Nat.eqb_neq; lia).
  replace (Z.of_nat (length data) <? 500)%Z with false
    by (symmetry; apply Z.ltb_ge; lia).
  reflexivity.
Qed.

(** The last turn of the loop, on a non-empty page shorter than [limit]. *)
Lemma fetch_loop_short src wallet max_records all off sent data :
  length all < max_records → (off ≤ 10000)%Z →
  src (Request wallet 500 off) = Json data →
  0 < length data → length data < 500 →
  fetch_loop src wallet max_records all off sent =
  Fetched (all ++ data) (sent ++ [Request wallet 500 off]).
Proof.
  intros Hlen Hoff Hsrc Hpos Hdata. rewrite fetch_loop_eq. cbv zeta. unfold limit.
  apply Nat.ltb_lt in Hlen as ->. apply Z.leb_le in Hoff as ->. simpl andb.
  rewrite Hsrc.
  replace (length data =? 0) with false by (symmetry; apply Nat.eqb_neq; lia).
  replace (Z.of_nat (length data) <? 500)%Z with true
    by (symmetry; apply Z.ltb_lt; lia).
  reflexivity.
Qed.

Section fetch_loop_rule.
Variables (src : source) (wallet : string) (max_records : nat).
Variable Inv : list activity → Z → list request → Prop.
Variable Post : fetched → Prop.

Let params (off : Z) := Request wallet limit off.

(** The loop is left because its condition fails. *)
Hypothesis exit_cond : ∀ all off sent,
  Inv all off sent →
  ¬ (length all < max_records ∧ (off ≤ 10000)%Z) →
  Post (Fetched all sent).
(** The loop is left through [except RequestException: break]. *)
Hypothesis exit_error : ∀ all off sent,
  Inv all off sent → length all < max_records → (off ≤ 10000)%Z →
  src (params off) = RequestException →
  Post (Fetched all (sent ++ [params off])).
(** The loop is left on an empty page. *)
Hypothesis exit_empty : ∀ all off sent,
  Inv all off sent → length all < max_records → (off ≤ 10000)%Z →
  src (params off) = Json [] →
  Post (Fetched all (sent ++ [params off])).
(** The loop is left on a page shorter than [limit]. *)
Hypothesis exit_short : ∀ all off sent data,
  Inv all off sent → length all < max_records → (off ≤ 10000)%Z →
  src (params off) = Json data →
  0 < length data → (Z.of_nat (length data) < limit)%Z →
  Post (Fetched (all ++ data) (sent ++ [params off])).
(** The loop goes round once more. *)
Hypothesis continue : ∀ all off sent data,
  Inv all off sent → length all < max_records → (off ≤ 10000)%Z →
  src (params off) = Json data →
  (limit ≤ Z.of_nat (length data))%Z →
  Inv (all ++ data) (off + limit)%Z (sent ++ [params off]).

Lemma fetch_loop_rule all off sent :
  Inv all off sent → Post (fetch_loop src wallet max_records all off sent).
Proof.
  remember (Z.to_nat (10500 - off)) as n eqn:Hn.
  revert all off sent Hn.
  induction n as [n IH] using (well_founded_induction lt_wf).
  intros all off sent Hn HI.
  rewrite fetch_loop_eq.
  destruct ((length all <? max_records) && (off <=? 10000)%Z) eqn:Hc.
  - apply andb_prop in Hc as [Hlen Hoff].
    apply Nat.ltb_lt in Hlen. apply Z.leb_le in Hoff.
    cbv zeta. fold (params off).
    destruct (src (params off)) as [|data] eqn:Hsrc.
    + by apply (exit_error all off sent).
    + destruct (length data =? 0) eqn:H0.
      * apply Nat.eqb_eq in H0. apply nil_length_inv in H0. subst data.
        by apply (exit_empty all off sent).
      * apply Nat.eqb_neq in H0.
        destruct (Z.of_nat (length data) <? limit)%Z eqn:Hshort.
        -- apply Z.ltb_lt in Hshort. apply (exit_short all off sent data); auto with lia.
        -- apply Z.ltb_ge in Hshort.
           apply (IH (Z.to_nat (10500 - (off + limit)))).
           ++ subst n. unfold limit. lia.
           ++ reflexivity.
           ++ by apply (continue all off sent data).
  - apply (exit_cond all off sent); [done|].
    intros [Hlen Hoff].
    apply Nat.ltb_lt in Hlen. apply Z.leb_le in Hoff.
    rewrite Hlen, Hoff in Hc. discriminate.
Qed.
End fetch_loop_rule.

Lemma page_requests_snoc wallet k :
  page_requests wallet (S k) =
  page_requests wallet k ++ [Request wallet limit (limit * Z.of_nat k)].
Proof.
  unfold page_requests. rewrite seq_S, fmap_app. reflexivity.
Qed.

Lemma page_requests_offset wallet k r :
  r ∈ page_requests wallet k →
  ∃ i, i < k ∧ r = Request wallet limit (limit * Z.of_nat i).
Proof.
  unfold page_requests. intros (i & -> & Hi)%list_elem_of_fmap.
  apply elem_of_seq in Hi. exists i. split; [lia | done].
Qed.

(** Whatever the source does, the requests issued are those of the first
    [k] pages for some [k ≤ 21]. *)
Lemma fetch_requests src wallet max_records :
  ∃ k, k ≤ 21 ∧
    requests (get_all_user_activity src wallet max_records) = page_requests wallet k.
Proof.
  unfold get_all_user_activity.
  apply (fetch_loop_rule src wallet max_records
    (λ _ off sent, ∃ k, k ≤ 21 ∧ off = (limit * Z.of_nat k)%Z
                        ∧ sent = page_requests wallet k)
    (λ r, ∃ k, k ≤ 21 ∧ requests r = page_requests wallet k)).
  - intros all off sent (k & Hk & -> & ->) _. by exists k.
  - intros all off sent (k & _ & -> & ->) _ Hoff _. exists (S k).
    unfold limit in Hoff. split; [lia|]. simpl. by rewrite page_requests_snoc.
  - intros all off sent (k & _ & -> & ->) _ Hoff _. exists (S k).
    unfold limit in Hoff. split; [lia|]. simpl. by rewrite page_requests_snoc.
  - intros all off sent data (k & _ & -> & ->) _ Hoff _ _ _. exists (S k).
    unfold limit in Hoff. split; [lia|]. simpl. by rewrite page_requests_snoc.
  - intros all off sent data (k & _ & -> & ->) _ Hoff _ _. exists (S k).
    unfold limit in Hoff.
    split; [lia | split; [unfold limit; lia | by rewrite page_requests_snoc]].
  - exists 0. split; [lia | split; [unfold limit; lia | reflexivity]].
Qed.

(** Against full pages and a budget above 10,000 records the loop runs until
    the offset has passed the ceiling: 21 requests, 10,500 records. *)
Lemma fetch_full_pages src wallet max_records :
  full_pages src → (10000 < Z.of_nat max_records)%Z →
  requests (get_all_user_activity src wallet max_records) = page_requests wallet 21
  ∧ Z.of_nat (length (all_activities (get_all_user_activity src wallet max_records)))
    = 10500%Z.
Proof.
  intros Hfull Hmax. unfold get_all_user_activity.
  apply (fetch_loop_rule src wallet max_records
    (λ all off sent, ∃ k, k ≤ 21 ∧ off = (limit * Z.of_nat k)%Z
                          ∧ sent = page_requests wallet k
                          ∧ length all = 500 * k)
    (λ r, requests r = page_requests wallet 21
          ∧ Z.of_nat (length (all_activities r)) = 10500%Z)).
  - intros all off sent (k & Hk & -> & -> & Hlen) Hc. simpl.
    assert (k = 21) as -> by (unfold limit in Hc; lia).
    split; [done | lia].
  - intros all off sent _ _ _ Hsrc.
    destruct (Hfull (Request wallet limit off)) as (d & Hd & _). congruence.
  - intros all off sent _ _ _ Hsrc.
    destruct (Hfull (Request wallet limit off)) as (d & Hd & Hl).
    rewrite Hsrc in Hd. injection Hd as <-. discriminate.
  - intros all off sent data _ _ _ Hsrc _ Hshort.
    destruct (Hfull (Request wallet limit off)) as (d & Hd & Hl).
    rewrite Hsrc in Hd. injection Hd as <-. unfold limit in Hshort. lia.
  - intros all off sent data (k & _ & -> & -> & Hlen) _ Hoff Hsrc _.
    destruct (Hfull (Request wallet limit (limit * Z.of_nat k))) as (d & Hd & Hl).
    rewrite Hsrc in Hd. injection Hd as <-.
    exists (S k). unfold limit in Hoff.
    split; [lia|]. split; [unfold limit; lia|].
    split; [by rewrite page_requests_snoc|]. rewrite length_app. lia.
  - exists 0. split; [lia|]. split; [unfold limit; lia|]. split; reflexivity.
Qed.


Lemma always_full_full_pages : full_pages always_full.
Proof. intros req. exists full_page. split; [done | apply length_replicate]. Qed.


(** ** Claims about the Fetcher *)

(** C3, as stated, fails: against full pages and a budget of 20,000 records
    the Fetcher still sends the request whose offset is 10,000 (its 21st). *)
Lemma request_issued_at_ceiling :
  requests (get_all_user_activity always_full "0xabc" large_budget) !! 20
    = Some (Request "0xabc" 500 10000)
  ∧ ¬ stops_on_reaching_ceiling.
Proof.
  assert (requests (get_all_user_activity always_full "0xabc" large_budget) !! 20
          = Some (Request "0xabc" 500 10000)) as Hreq.
  { rewrite (proj1 (fetch_full_pages always_full "0xabc" large_budget
               always_full_full_pages eq_refl)).
    reflexivity. }
  split; [exact Hreq|].
  intros Hstop. apply list_elem_of_lookup_2 in Hreq.
  apply Hstop in Hreq. simpl in Hreq. lia.
Qed.

(** C3 (amended): a page request is issued only while the offset is at most
    10,000, the request at offset 10,000 included: every request has an offset
    between 0 and 10,000, at most 21 requests are made whatever the source and
    the budget, and against a source of full 500-record pages with a budget
    above 10,000 records the requests are exactly those at offsets
    0, 500, ..., 10,000. *)
Theorem fetch_stops_past_ceiling src wallet max_records :
  let r := get_all_user_activity src wallet max_records in
  (∀ q, q ∈ requests r → (0 ≤ req_offset q ≤ 10000)%Z)
  ∧ length (requests r) ≤ 21
  ∧ (full_pages src → (10000 < Z.of_nat max_records)%Z →
     requests r = page_requests wallet 21
     ∧ last (requests r) = Some (Request wallet 500 10000)).
Proof.
  intros r. subst r.
  destruct (fetch_requests src wallet max_records) as (k & Hk & Hreq).
  split; [|split].
  - intros q Hq. rewrite Hreq in Hq.
    apply page_requests_offset in Hq as (i & Hi & ->). simpl. unfold limit. lia.
  - rewrite Hreq. unfold page_requests. rewrite length_fmap, length_seq. done.
  - intros Hfull Hmax.
    destruct (fetch_full_pages src wallet max_records Hfull Hmax) as [-> _].
    split; reflexivity.
Qed.

Lemma fetch_stops_past_ceiling_witness :
  requests (get_all_user_activity always_full "0xabc" large_budget)
    = page_requests "0xabc" 21
  ∧ last (requests (get_all_user_activity always_full "0xabc" large_budget))
    = Some (Request "0xabc" 500 10000).
Proof.
  apply (fetch_stops_past_ceiling always_full "0xabc" large_budget).
  - exact always_full_full_pages.
  - reflexivity.
Defined.

(** C8: for pages of 500, 500 and 200 records and a budget above 1000, exactly
    three requests are made (offsets 0, 500, 1000) and all 1200 records are
    returned, the short page included. *)
Theorem fetch_three_pages src wallet max_records p1 p2 p3 :
  1000 < max_records →
  src (Request wallet 500 0) = Json p1 → length p1 = 500 →
  src (Request wallet 500 500) = Json p2 → length p2 = 500 →
  src (Request wallet 500 1000) = Json p3 → length p3 = 200 →
  get_all_user_activity src wallet max_records =
    Fetched (p1 ++ p2 ++ p3)
      [Request wallet 500 0; Request wallet 500 500; Request wallet 500 1000]
  ∧ length (requests (get_all_user_activity src wallet max_records)) = 3
  ∧ length (all_activities (get_all_user_activity src wallet max_records)) = 1200.
Proof.
  intros Hmax H1 L1 H2 L2 H3 L3.
  assert (get_all_user_activity src wallet max_records =
    Fetched (p1 ++ p2 ++ p3)
      [Request wallet 500 0; Request wallet 500 500; Request wallet 500 1000])
    as Hrun.
  { unfold get_all_user_activity.
    rewrite (fetch_loop_continue _ _ _ _ _ _ p1); [|simpl; lia|lia|done|lia].
    change (0 + 500)%Z with 500%Z.
    rewrite (fetch_loop_continue _ _ _ _ _ _ p2); [|simpl; lia|lia|done|lia].
    change (500 + 500)%Z with 1000%Z.
    rewrite (fetch_loop_short _ _ _ _ _ _ p3);
      [|rewrite length_app; simpl; lia|lia|done|lia|lia].
    simpl.
    by rewrite <- app_assoc. }
  rewrite Hrun. simpl. rewrite !length_app. split; [done | split; [done | lia]].
Qed.

Lemma fetch_three_pages_witness :
  length (requests (get_all_user_activity three_pages "0xabc" 2000)) = 3
  ∧ length (all_activities (get_all_user_activity three_pages "0xabc" 2000)) = 1200.
Proof.
  apply (fetch_three_pages three_pages "0xabc" 2000
           (replicate 500 split_a) (replicate 500 split_b) (replicate 200 split_a)).
  - lia.
  - reflexivity.
  - apply length_replicate.
  - reflexivity.
  - apply length_replicate.
  - reflexivity.
  - apply length_replicate.
Defined.



(** Without the page-size contract there is no such bound: a source that
    answers with 1000 records overshoots a budget of 1 by 999. *)
Example fetch_oversized_page :
  length (all_activities (get_all_user_activity oversized "0xabc" 1)) = 1000.
Proof. vm_compute. reflexivity. Qed.

(** ** Lists *)

Lemma filter_one_True {A} (P : A → Prop) `{!∀ x, Decision (P x)} (x : A) :
  P x → filter P [x] = [x].
Proof. intros HP. by rewrite (filter_singleton P x []), decide_True. Qed.

Lemma filter_one_False {A} (P : A → Prop) `{!∀ x, Decision (P x)} (x : A) :
  ¬ P x → filter P [x] = [].
Proof. intros HP. by rewrite (filter_singleton P x []), decide_False. Qed.

(** ** The Deduplicator's loop *)

Lemma dedup_inv_init : dedup_inv [] dedup_init.
Proof. split; simpl; [set_solver | done | done]. Qed.

Lemma take_1_app_nonempty {A} (l k : list A) : l ≠ [] → take 1 (l ++ k) = take 1 l.
Proof. destruct l; [done | reflexivity]. Qed.

Lemma dedup_inv_step past st a :
  dedup_inv past st → dedup_inv (past ++ [a]) (dedup_step st a).
Proof.
  intros [Hseen Hsub Hfirst]. unfold dedup_step.
  destruct (decide (unique_key a ∈ seen st)) as [Hin|Hnin]; split; simpl.
  - intros k. rewrite fmap_app, elem_of_app, Hseen. simpl.
    rewrite list_elem_of_singleton. split; [by left|].
    intros [?| ->]; [done | by apply Hseen].
  - by apply sublist_inserts_r.
  - intros k. rewrite Hfirst, filter_app.
    destruct (decide (unique_key a = k)) as [<-|Hne].
    + apply Hseen in Hin. apply list_elem_of_fmap in Hin as (b & Hb & Hbin).
      symmetry. apply take_1_app_nonempty.
      intros Hnil.
      eapply filter_nil_not_elem_of; [exact Hnil | symmetry; exact Hb | exact Hbin].
    + rewrite filter_one_False by done. by rewrite app_nil_r.
  - intros k. rewrite fmap_app, elem_of_app, elem_of_union, elem_of_singleton.
    simpl. rewrite list_elem_of_singleton, Hseen. tauto.
  - by apply sublist_app.
  - intros k. rewrite !filter_app, Hfirst.
    destruct (decide (unique_key a = k)) as [<-|Hne].
    + assert (filter (λ b, unique_key b = unique_key a) past = []) as ->.
      { destruct (filter _ past) as [|b l] eqn:Hf; [done|].
        assert (b ∈ filter (λ b, unique_key b = unique_key a) past) as Hb
          by (rewrite Hf; left).
        apply list_elem_of_filter in Hb as [Hkey Hb]. exfalso. apply Hnin.
        apply Hseen, list_elem_of_fmap. by exists b. }
      by rewrite filter_one_True.
    + rewrite filter_one_False by done. by rewrite !app_nil_r.
Qed.

Lemma dedup_inv_foldl past st rest :
  dedup_inv past st → dedup_inv (past ++ rest) (foldl dedup_step st rest).
Proof.
  revert past st. induction rest as [|a rest IH]; intros past st Hinv; simpl.
  - by rewrite app_nil_r.
  - rewrite cons_middle, app_assoc. apply IH. by apply dedup_inv_step.
Qed.

Lemma remove_duplicates_inv activities :
  dedup_inv activities (foldl dedup_step dedup_init activities).
Proof. apply (dedup_inv_foldl [] dedup_init activities), dedup_inv_init. Qed.

(** A list with at most one element per key has distinct keys. *)
Lemma NoDup_fmap_of_filter {A K} `{EqDecision K} (f : A → K) (l : list A) :
  (∀ k, length (filter (λ a, f a = k) l) ≤ 1) → NoDup (f <$> l).
Proof.
  induction l as [|x l IH]; intros Hone; simpl; [constructor|].
  apply NoDup_cons. split.
  - intros (y & Hy & Hin)%list_elem_of_fmap.
    specialize (Hone (f x)). rewrite filter_cons_True in Hone by done.
    assert (y ∈ filter (λ a, f a = f x) l) as Hyf
      by (apply list_elem_of_filter; done).
    destruct (filter _ l); [by apply elem_of_nil in Hyf | simpl in Hone; lia].
  - apply IH. intros k. specialize (Hone k). rewrite filter_cons in Hone.
    destruct (decide (f x = k)); simpl in Hone; lia.
Qed.

(** A record's identity is its transaction hash exactly when it has one. *)
Lemma unique_key_hash a h :
  truthy h = true → unique_key a = KHash h ↔ get a "transactionHash" = h.
Proof.
  intros Hh. unfold unique_key.
  destruct (truthy (get a "transactionHash")) eqn:Ht.
  - split; [by intros [= ->] | by intros ->].
  - split; [done | intros Heq; rewrite Heq in Ht; congruence].
Qed.

(** ** Claims about the Deduplicator *)

(** C6: the deduplicated batch is a subsequence of the input (order kept),
    holds no identity twice, and of the records sharing an identity holds
    exactly the first; so of several records with one non-empty
    transactionHash exactly the earliest is retained. *)
Theorem remove_duplicates_first_wins activities :
  remove_duplicates activities `sublist_of` activities
  ∧ NoDup (unique_key <$> remove_duplicates activities)
  ∧ (∀ k, filter (λ a, unique_key a = k) (remove_duplicates activities)
          = take 1 (filter (λ a, unique_key a = k) activities))
  ∧ (∀ before a between b after h,
       activities = before ++ a :: between ++ b :: after →
       truthy h = true →
       get a "transactionHash" = h → get b "transactionHash" = h →
       (∀ c, c ∈ before → get c "transactionHash" ≠ h) →
       filter (λ c, get c "transactionHash" = h) (remove_duplicates activities)
       = [a]).
Proof.
  destruct (remove_duplicates_inv activities) as [_ Hsub Hfirst].
  fold (remove_duplicates activities) in Hsub, Hfirst.
  split; [exact Hsub|]. split; [|split; [exact Hfirst|]].
  - apply NoDup_fmap_of_filter. intros k. rewrite Hfirst, length_take. lia.
  - intros before a between b after h -> Hh Ha Hb Hbefore.
    rewrite <- (list_filter_iff (λ c, unique_key c = KHash h)
                                (λ c, get c "transactionHash" = h))
      by (intros c; by apply unique_key_hash).
    rewrite Hfirst, filter_app.
    assert (filter (λ c, unique_key c = KHash h) before = []) as ->.
    { destruct (filter _ before) as [|c l] eqn:Hf; [done|].
      assert (c ∈ filter (λ c, unique_key c = KHash h) before) as Hc
        by (rewrite Hf; left).
      apply list_elem_of_filter in Hc as [Hkey Hc].
      apply unique_key_hash in Hkey; [|done]. by apply Hbefore in Hc. }
    rewrite filter_cons_True by (by apply unique_key_hash). reflexivity.
Qed.

(** ** The Grouper's loop *)

Lemma fmap_ext_elem_of {A B} (f g : A → B) (l : list A) :
  (∀ x, x ∈ l → f x = g x) → f <$> l = g <$> l.
Proof.
  intros Hfg. apply list_fmap_ext. intros i x Hx.
  apply Hfg. by eapply list_elem_of_lookup_2.
Qed.

Lemma filter_none {A} (P : A → Prop) `{!∀ x, Decision (P x)} (l : list A) :
  (∀ x, x ∈ l → ¬ P x) → filter P l = [].
Proof.
  intros Hno. destruct (filter P l) as [|x l'] eqn:Hf; [done|].
  assert (x ∈ filter P l) as Hx by (rewrite Hf; left).
  apply list_elem_of_filter in Hx as [HP Hx]. by apply Hno in Hx.
Qed.

Section first_occurrences.
Context {A : Type} `{EqDecision A}.
Implicit Types l : list A.

Lemma elem_of_first_occurrences l x : x ∈ first_occurrences l ↔ x ∈ l.
Proof.
  induction l as [|y l IH]; simpl; [done|].
  rewrite !elem_of_cons, list_elem_of_filter, IH.
  destruct (decide (x = y)); naive_solver.
Qed.

Lemma NoDup_first_occurrences l : NoDup (first_occurrences l).
Proof.
  induction l as [|y l IH]; simpl; [constructor|].
  apply NoDup_cons. split.
  - rewrite list_elem_of_filter. naive_solver.
  - by apply NoDup_filter.
Qed.

Lemma first_occurrences_snoc l x :
  first_occurrences (l ++ [x]) =
  if decide (x ∈ l) then first_occurrences l else first_occurrences l ++ [x].
Proof.
  induction l as [|y l IH]; simpl.
  - destruct (decide (x ∈ [])) as [Hin|_]; [by apply elem_of_nil in Hin | done].
  - rewrite IH. destruct (decide (x ∈ l)) as [Hin|Hnin].
    + rewrite decide_True by (by right). done.
    + rewrite filter_app. destruct (decide (x = y)) as [->|Hne].
      * rewrite decide_True by left.
        rewrite filter_one_False by (intros Hyy; by apply Hyy).
        by rewrite app_nil_r.
      * rewrite decide_False by (rewrite elem_of_cons; tauto).
        by rewrite filter_one_True.
Qed.
End first_occurrences.

(** [markets_append] on a dict that has the key, and on one that has not. *)
Lemma markets_append_present slug a (f : scalar → list activity) ks :
  NoDup ks → slug ∈ ks →
  markets_append slug a ((λ k, (k, f k)) <$> ks) =
  (λ k, (k, if decide (k = slug) then f k ++ [a] else f k)) <$> ks.
Proof.
  induction ks as [|k ks IH]; intros Hnd Hin; [by apply elem_of_nil in Hin|].
  apply NoDup_cons in Hnd as [Hk Hnd]. simpl.
  destruct (decide (k = slug)) as [->|Hne].
  - f_equal. apply fmap_ext_elem_of. intros k' Hk'.
    rewrite decide_False; [done | by intros ->].
  - f_equal. apply IH; [done|].
    apply elem_of_cons in Hin as [->|]; done.
Qed.

Lemma markets_append_absent slug a (f : scalar → list activity) ks :
  slug ∉ ks →
  markets_append slug a ((λ k, (k, f k)) <$> ks) =
  ((λ k, (k, f k)) <$> ks) ++ [(slug, [a])].
Proof.
  induction ks as [|k ks IH]; intros Hnin; simpl; [done|].
  apply not_elem_of_cons in Hnin as [Hne Hnin].
  rewrite decide_False by done. f_equal. by apply IH.
Qed.

Lemma group_keys_truthy activities k :
  k ∈ first_occurrences (group_keys activities) → truthy k = true.
Proof.
  rewrite elem_of_first_occurrences. unfold group_keys.
  by intros [? _]%list_elem_of_filter.
Qed.

Lemma group_keys_elem_of activities k :
  k ∈ group_keys activities ↔
  truthy k = true ∧ ∃ a, a ∈ activities ∧ slug_of a = k.
Proof.
  unfold group_keys. rewrite list_elem_of_filter, list_elem_of_fmap. naive_solver.
Qed.

Lemma group_keys_snoc past a :
  group_keys (past ++ [a]) =
  if truthy (slug_of a) then group_keys past ++ [slug_of a] else group_keys past.
Proof.
  unfold group_keys. rewrite fmap_app, filter_app.
  change (slug_of <$> [a]) with [slug_of a].
  destruct (truthy (slug_of a)) eqn:Ht.
  - by rewrite filter_one_True.
  - rewrite filter_one_False by (rewrite Ht; done). by rewrite app_nil_r.
Qed.

Lemma group_step_groups_of past a :
  group_step (groups_of past) a = groups_of (past ++ [a]).
Proof.
  unfold group_step, groups_of. rewrite group_keys_snoc.
  destruct (truthy (slug_of a)) eqn:Ht.
  - rewrite first_occurrences_snoc.
    destruct (decide (slug_of a ∈ group_keys past)) as [Hin|Hnin].
    + rewrite markets_append_present;
        [|apply NoDup_first_occurrences|by apply elem_of_first_occurrences].
      apply fmap_ext_elem_of. intros k Hk. f_equal. rewrite filter_app.
      destruct (decide (k = slug_of a)) as [->|Hne].
      * by rewrite filter_one_True.
      * rewrite filter_one_False by congruence. by rewrite app_nil_r.
    + rewrite markets_append_absent by (by rewrite elem_of_first_occurrences).
      rewrite fmap_app.
      change ((λ k, (k, filter (λ a0, slug_of a0 = k) (past ++ [a])))
                <$> [slug_of a])
        with [(slug_of a, filter (λ a0, slug_of a0 = slug_of a) (past ++ [a]))].
      f_equal.
      * apply fmap_ext_elem_of. intros k Hk. f_equal. rewrite filter_app.
        rewrite filter_one_False; [by rewrite app_nil_r|].
        intros Heq. apply Hnin. rewrite Heq.
        by apply elem_of_first_occurrences.
      * f_equal. f_equal. rewrite filter_app.
        rewrite filter_one_True by done.
        rewrite filter_none; [done|].
        intros b Hb Hslug. apply Hnin. apply group_keys_elem_of.
        split; [done | by exists b].
  - apply fmap_ext_elem_of. intros k Hk. f_equal. rewrite filter_app.
    rewrite filter_one_False; [by rewrite app_nil_r|].
    intros Heq. apply group_keys_truthy in Hk. congruence.
Qed.

Lemma group_by_market_groups_of activities :
  group_by_market activities = groups_of activities.
Proof.
  unfold group_by_market.
  change (@nil (scalar * list activity)) with (groups_of []).
  change activities with ([] ++ activities) at 2.
  generalize (@nil activity) as past.
  induction activities as [|a rest IH]; intros past; simpl.
  - by rewrite app_nil_r.
  - rewrite group_step_groups_of, IH, <- app_assoc. done.
Qed.

(** ** Claims about the Deduplicator and the Grouper *)

Lemma remove_duplicates_first_wins_witness :
  filter (λ c, get c "transactionHash" = SStr "0xaa")
    (remove_duplicates [trade_1; split_a; trade_1_again])
  = [trade_1].
Proof.
  apply (proj2 (proj2 (proj2
           (remove_duplicates_first_wins [trade_1; split_a; trade_1_again])))
           [] trade_1 [split_a] trade_1_again [] (SStr "0xaa")).
  - reflexivity.
  - reflexivity.
  - vm_compute. reflexivity.
  - vm_compute. reflexivity.
  - intros c Hc. by apply elem_of_nil in Hc.
Defined.

(** C1 (the code at the failing input): for records without a transaction
    hash the third component of the identity is the 'slug' of a nested
    'market' object, not the top-level 'slug' the Grouper reads; two such
    records without a 'market' object that agree on timestamp, type and side
    have the same identity whatever their group keys, and only the first is
    retained. *)
Theorem dedup_key_ignores_group_key a b :
  truthy (get a "transactionHash") = false →
  truthy (get b "transactionHash") = false →
  market a = None → market b = None →
  get a "timestamp" = get b "timestamp" →
  get a "type" = get b "type" →
  get a "side" = get b "side" →
  unique_key a = KTuple (get a "timestamp") (get a "type") SNull (get a "side")
  ∧ unique_key b = unique_key a
  ∧ remove_duplicates [a; b] = [a].
Proof.
  intros Ha Hb Hma Hmb Hts Hty Hside.
  assert (unique_key a
          = KTuple (get a "timestamp") (get a "type") SNull (get a "side")) as Hka.
  { unfold unique_key, market_slug. by rewrite Ha, Hma. }
  assert (unique_key b = unique_key a) as Hkb.
  { rewrite Hka. unfold unique_key, market_slug.
    by rewrite Hb, Hmb, Hts, Hty, Hside. }
  split; [done | split; [done|]].
  unfold remove_duplicates. simpl. unfold dedup_step at 2. simpl.
  rewrite decide_False by set_solver. unfold dedup_step. simpl.
  rewrite decide_True by (rewrite Hkb; set_solver). reflexivity.
Qed.

Lemma dedup_key_ignores_group_key_witness :
  slug_of split_a ≠ slug_of split_b
  ∧ remove_duplicates [split_a; split_b] = [split_a].
Proof.
  split; [by vm_compute|].
  apply (dedup_key_ignores_group_key split_a split_b); by vm_compute.
Defined.

(** C7: the groups partition the records that have a group key: the keys of
    the dict are distinct; the group of a key holds exactly the records of
    the batch with that key, in batch order; a record with a non-empty key is
    in the group named by its key and in no other; a record with an absent or
    empty key is in no group; and the dict iterates over the keys in the
    order in which each was first met. *)
Theorem group_by_market_partition activities :
  let markets := group_by_market activities in
  NoDup markets.*1
  ∧ (∀ k l, (k, l) ∈ markets →
       truthy k = true ∧ l = filter (λ a, slug_of a = k) activities)
  ∧ (∀ a, a ∈ activities → truthy (slug_of a) = true →
       (∃ l, (slug_of a, l) ∈ markets ∧ a ∈ l)
       ∧ (∀ k l, (k, l) ∈ markets → a ∈ l → k = slug_of a))
  ∧ (∀ a k l, truthy (slug_of a) = false → (k, l) ∈ markets → a ∉ l)
  ∧ markets.*1 = first_occurrences (group_keys activities).
Proof.
  intros markets. subst markets. rewrite group_by_market_groups_of.
  assert (∀ k l, (k, l) ∈ groups_of activities →
            truthy k = true ∧ l = filter (λ a, slug_of a = k) activities) as Hgroup.
  { intros k l (k' & [= -> ->] & Hk)%list_elem_of_fmap.
    split; [by eapply group_keys_truthy | done]. }
  assert ((groups_of activities).*1 = first_occurrences (group_keys activities))
    as Hkeys.
  { unfold groups_of. rewrite <- list_fmap_compose.
    rewrite <- (list_fmap_id (first_occurrences _)) at 2.
    by apply fmap_ext_elem_of. }
  split; [|split; [exact Hgroup | split; [|split; [|exact Hkeys]]]].
  - rewrite Hkeys. apply NoDup_first_occurrences.
  - intros a Ha Ht. split.
    + exists (filter (λ b, slug_of b = slug_of a) activities). split.
      * apply list_elem_of_fmap. exists (slug_of a). split; [done|].
        apply elem_of_first_occurrences, group_keys_elem_of.
        split; [done | by exists a].
      * by apply list_elem_of_filter.
    + intros k l Hkl Hal. apply Hgroup in Hkl as [_ ->].
      by apply list_elem_of_filter in Hal as [-> _].
  - intros a k l Ht Hkl Hal. apply Hgroup in Hkl as [Hk ->].
    apply list_elem_of_filter in Hal as [Heq _]. congruence.
Qed.

Lemma group_by_market_partition_witness :
  (∃ l, (slug_of split_b, l)
          ∈ group_by_market [split_b; no_slug; trade_1; split_b] ∧ split_b ∈ l)
  ∧ (∀ k l, (k, l) ∈ group_by_market [split_b; no_slug; trade_1; split_b] →
       split_b ∈ l → k = slug_of split_b).
Proof.
  apply (group_by_market_partition [split_b; no_slug; trade_1; split_b]).
  - left.
  - vm_compute. reflexivity.
Defined.

Example group_by_market_sample :
  group_by_market [split_b; no_slug; trade_1; split_b] =
  [(SStr "market-b", [split_b; split_b]); (SStr "market-a", [trade_1])].
Proof. vm_compute. reflexivity. Qed.

(** ** Timestamps *)

(** Days within the years 1 to 9999 fall in a year between 1 and 9999. *)
Lemma civil_year_range days :
  (-719162 ≤ days ≤ 2932896)%Z →
  (1 ≤ (civil_from_days days).1.1 ≤ 9999)%Z.
Proof.
  intros H. unfold civil_from_days.
  remember (days + 719468)%Z as z eqn:Hz.
  remember (z / 146097)%Z as era eqn:Hera.
  remember (z - era * 146097)%Z as doe eqn:Hdoe.
  remember ((doe - doe / 1460 + doe / 36524 - doe / 146096) / 365)%Z
    as yoe eqn:Hyoe.
  remember (doe - (365 * yoe + yoe / 4 - yoe / 100))%Z as doy eqn:Hdoy.
  remember ((5 * doy + 2) / 153)%Z as mp eqn:Hmp.
  cbv zeta. cbn [fst].
  assert (0 ≤ era ≤ 24)%Z by (clear Hyoe Hdoy Hmp; euclid; lia).
  assert (0 ≤ doe ≤ 146096)%Z by (clear Hyoe Hdoy Hmp; euclid; lia).
  assert (0 ≤ yoe ≤ 399)%Z by (clear Hz Hera Hdoe Hdoy Hmp; euclid; lia).
  assert (0 ≤ doy ≤ 365)%Z by (clear Hz Hera Hdoe Hmp; euclid; lia).
  assert (0 ≤ mp ≤ 11)%Z by (clear Hz Hera Hdoe Hyoe Hdoy; euclid; lia).
  destruct (mp <? 10)%Z eqn:Hlt.
  - apply Z.ltb_lt in Hlt.
    replace (mp + 3 <=? 2)%Z with false by (symmetry; apply Z.leb_gt; lia).
    split.
    + destruct (Z.eq_dec era 0) as [He|He]; [|lia].
      destruct (Z.eq_dec yoe 0) as [Hy|Hy]; [|lia].
      exfalso.
      assert (doe = z) by lia.
      assert (doy = doe)
        by (clear Hyoe Hz Hera Hdoe Hmp; subst yoe; euclid; lia).
      assert (306 ≤ z)%Z by lia.
      clear Hz Hera Hdoe Hyoe Hdoy. euclid. lia.
    + destruct (Z.eq_dec era 24) as [He|He]; lia.
  - apply Z.ltb_ge in Hlt.
    replace (mp - 9 <=? 2)%Z with true by (symmetry; apply Z.leb_le; lia).
    split; [lia|].
    destruct (Z.eq_dec era 24) as [He|He]; [|lia].
    destruct (Z.eq_dec yoe 399) as [Hy|Hy]; [|lia].
    exfalso.
    assert (doe ≤ 146036)%Z by lia.
    assert (doy ≤ 305)%Z
      by (clear Hyoe Hz Hera Hdoe Hmp; subst yoe; euclid; lia).
    clear Hz Hera Hdoe Hyoe Hdoy. euclid. lia.
Qed.

(** Epochs from 0001-01-01 00:00:00 to 9999-12-31 23:59:59 have a date. *)
Lemma fromtimestamp_utc_in_range t :
  (-62135596800 ≤ t ≤ 253402300799)%Z → ∃ dt, fromtimestamp_utc t = Ok dt.
Proof.
  intros Ht. unfold fromtimestamp_utc.
  assert (-719162 ≤ t / 86400 ≤ 2932896)%Z as Hdays by (euclid; lia).
  apply civil_year_range in Hdays.
  destruct (civil_from_days (t / 86400)) as [[y m] d]. simpl in Hdays.
  replace ((1 <=? y)%Z && (y <=? 9999)%Z) with true; [eauto|].
  symmetry. apply andb_true_intro. split; apply Z.leb_le; lia.
Qed.

Example strftime_epoch :
  strftime <$> [DateTime 1970 1 1 0 0 0; DateTime 2023 11 14 22 13 20]
  = ["1970-01-01 00:00:00"; "2023-11-14 22:13:20"].
Proof. reflexivity. Qed.

Example fromtimestamp_utc_samples :
  fromtimestamp_utc 0 = Ok (DateTime 1970 1 1 0 0 0)
  ∧ fromtimestamp_utc 951827696 = Ok (DateTime 2000 2 29 12 34 56)
  ∧ fromtimestamp_utc 1700000000 = Ok (DateTime 2023 11 14 22 13 20)
  ∧ fromtimestamp_utc (-1) = Ok (DateTime 1969 12 31 23 59 59)
  ∧ fromtimestamp_utc 253402300799 = Ok (DateTime 9999 12 31 23 59 59)
  ∧ fromtimestamp_utc 253402300800 = Err ValueError.
Proof. repeat split; reflexivity. Qed.

Example py_int_samples :
  py_int (SStr " -1_000 ") = Ok (-1000)%Z
  ∧ py_int (SStr "+7") = Ok 7%Z
  ∧ py_int (SStr "yesterday") = Err ValueError
  ∧ py_int (SStr "1__0") = Err ValueError
  ∧ py_int (SStr "") = Err ValueError
  ∧ py_int SNull = Err TypeError.
Proof. repeat split; reflexivity. Qed.

(** A truthy entry is present, so the default of [get_or] is not used. *)
Lemma get_or_truthy a k dflt :
  truthy (get a k) = true → get_or a k dflt = get a k.
Proof.
  unfold get, get_or, dict_get. by destruct (fields a !! k).
Qed.

Lemma csv_line_datetime a :
  csv_line a = match datetime_cell a with
               | Ok dt => csv_line a
               | Err e => Err e
               end.
Proof.
  unfold csv_line, make_row. by destruct (datetime_cell a).
Qed.

Lemma csv_line_ok a dt :
  datetime_cell a = Ok dt → ∃ line, csv_line a = Ok line.
Proof. intros Hdt. unfold csv_line, make_row. rewrite Hdt. simpl. eauto. Qed.

Lemma csv_line_err a e :
  datetime_cell a = Err e → csv_line a = Err e.
Proof. intros Hdt. unfold csv_line, make_row. by rewrite Hdt. Qed.

(** A non-empty timestamp that [int] rejects makes the row raise. *)
Lemma datetime_cell_unparseable a e :
  truthy (get a "timestamp") = true →
  py_int (get a "timestamp") = Err e →
  datetime_cell a = Err e ∧ csv_line a = Err e.
Proof.
  intros Ht Hint.
  assert (datetime_cell a = Err e) as Hcell.
  { unfold datetime_cell. rewrite Ht, get_or_truthy, Hint by done. done. }
  split; [done | by apply csv_line_err].
Qed.

(** ** Claims about the datetime column *)

(** C4, as stated, fails twice: a non-empty timestamp that is not a number
    makes the row raise [ValueError] (nothing is written for the record, and
    the exception leaves [save_market_to_csv]); and the parseable epoch 0 is
    rendered as the empty string, not as 1970-01-01 00:00:00. *)
Lemma malformed_timestamp_raises :
  datetime_cell bad_timestamp = Err ValueError
  ∧ csv_line bad_timestamp = Err ValueError
  ∧ (save_market_to_csv (SStr "market-a")
       (trades_of "market-a" 30 ++ [bad_timestamp]) "/data" empty_world).2
    = Err ValueError
  ∧ ¬ malformed_timestamp_recovered
  ∧ datetime_cell epoch_zero = Ok ""
  ∧ strftime <$> fromtimestamp_utc 0 = Ok "1970-01-01 00:00:00"
  ∧ ¬ parseable_timestamp_formatted.
Proof.
  assert (datetime_cell bad_timestamp = Err ValueError) as Hbad
    by (vm_compute; reflexivity).
  assert (datetime_cell epoch_zero = Ok "") as Hzero
    by (vm_compute; reflexivity).
  split; [exact Hbad|]. split; [by apply csv_line_err|].
  split; [vm_compute; reflexivity|]. split; [|split; [exact Hzero|split]].
  - intros Hclaim.
    destruct (Hclaim bad_timestamp) as [Hcell _].
    { right. exists ValueError. vm_compute. reflexivity. }
    rewrite Hbad in Hcell. discriminate.
  - reflexivity.
  - intros Hclaim.
    specialize (Hclaim epoch_zero 0%Z (DateTime 1970 1 1 0 0 0)).
    rewrite Hzero in Hclaim.
    assert (Ok "" = Ok (strftime (DateTime 1970 1 1 0 0 0))) as Heq
      by (apply Hclaim; vm_compute; reflexivity).
    discriminate.
Qed.

(** C4 (amended): a record whose timestamp is absent, null, the empty string
    or 0 gets an empty string in the datetime column and its row is written;
    a record whose timestamp is truthy and reads as an epoch between
    0001-01-01 00:00:00 and 9999-12-31 23:59:59 gets that instant formatted
    in UTC, and its row is written. *)
Theorem datetime_column a :
  (truthy (get a "timestamp") = false →
     ∃ row, make_row a = Ok row
            ∧ row_get row "datetime" = SStr ""
            ∧ csv_line a = Ok (writerow row))
  ∧ (∀ t, truthy (get a "timestamp") = true →
       py_int (get a "timestamp") = Ok t →
       (-62135596800 ≤ t ≤ 253402300799)%Z →
       ∃ dt row, fromtimestamp_utc t = Ok dt
                 ∧ make_row a = Ok row
                 ∧ row_get row "datetime" = SStr (strftime dt)
                 ∧ csv_line a = Ok (writerow row)).
Proof.
  split.
  - intros Ht.
    assert (datetime_cell a = Ok "") as Hcell
      by (unfold datetime_cell; by rewrite Ht).
    unfold csv_line, make_row. rewrite Hcell. simpl.
    eexists. split; [reflexivity|]. split; reflexivity.
  - intros t Ht Hint Hrange.
    destruct (fromtimestamp_utc_in_range t Hrange) as [dt Hdt].
    assert (datetime_cell a = Ok (strftime dt)) as Hcell.
    { unfold datetime_cell. rewrite Ht, get_or_truthy, Hint by done.
      simpl. by rewrite Hdt. }
    unfold csv_line, make_row. rewrite Hcell. simpl.
    exists dt. eexists. split; [done|]. split; [reflexivity|].
    split; reflexivity.
Qed.

Lemma datetime_column_witness :
  ∃ dt row, fromtimestamp_utc 1700000300 = Ok dt
            ∧ make_row trade_1 = Ok row
            ∧ row_get row "datetime" = SStr (strftime dt)
            ∧ csv_line trade_1 = Ok (writerow row).
Proof.
  apply (proj2 (datetime_column trade_1) 1700000300%Z).
  - vm_compute. reflexivity.
  - vm_compute. reflexivity.
  - lia.
Defined.

Example datetime_cell_sample :
  datetime_cell trade_1 = Ok "2023-11-14 22:18:20"
  ∧ datetime_cell no_slug = Ok "2023-11-14 22:16:40"
  ∧ datetime_cell (record_of [("type", SStr "TRADE")]) = Ok ""
  ∧ datetime_cell (record_of [("timestamp", SNull)]) = Ok ""
  ∧ datetime_cell (record_of [("timestamp", SStr "")]) = Ok ""
  ∧ datetime_cell (record_of [("timestamp", SStr "1700000000")])
    = Ok "2023-11-14 22:13:20".
Proof. repeat split; vm_compute; reflexivity. Qed.

(** ** The Persistence Gate *)

Lemma string_app_nil_r (s : string) : s +:+ "" = s.
Proof.
  induction s as [|c s IH]; [reflexivity|].
  change (String c (s +:+ "") = String c s). by rewrite IH.
Qed.

Lemma string_app_assoc (s1 s2 s3 : string) :
  (s1 +:+ s2) +:+ s3 = s1 +:+ s2 +:+ s3.
Proof.
  induction s1 as [|c s1 IH]; [reflexivity|].
  change (String c ((s1 +:+ s2) +:+ s3) = String c (s1 +:+ s2 +:+ s3)).
  by rewrite IH.
Qed.

(** When every record renders, the block writes all the lines and leaves
    without an exception. *)
Lemma write_rows_all_render activities written :
  forallb renders activities = true →
  write_rows activities written =
  (written +:+ foldr String.append "" (line_of <$> activities), None).
Proof.
  revert written. induction activities as [|a rest IH]; intros written Hall.
  - simpl. by rewrite string_app_nil_r.
  - simpl in Hall. apply andb_prop in Hall as [Ha Hrest].
    unfold renders in Ha. simpl. unfold line_of.
    destruct (csv_line a) as [line|e]; [|done].
    rewrite IH by done. by rewrite string_app_assoc.
Qed.

Lemma makedirs_idemp output_dir w :
  makedirs output_dir (makedirs output_dir w) = makedirs output_dir w.
Proof. unfold makedirs. simpl. f_equal. set_solver. Qed.

Lemma makedirs_write_file output_dir path content w :
  makedirs output_dir (write_file path content (makedirs output_dir w))
  = write_file path content (makedirs output_dir w).
Proof. unfold makedirs, write_file. simpl. f_equal. set_solver. Qed.

Lemma write_file_idemp path content w :
  write_file path content (write_file path content w) = write_file path content w.
Proof. unfold write_file. simpl. f_equal. apply insert_insert_eq. Qed.



Lemma write_rows_none activities written content :
  write_rows activities written = (content, None) →
  forallb renders activities = true.
Proof.
  revert written. induction activities as [|a rest IH]; intros written Hw.
  - reflexivity.
  - simpl in *. unfold renders at 1.
    destruct (csv_line a) as [line|e]; [|done].
    simpl. by eapply IH.
Qed.

(** The body of the Gate for a group that is not empty. *)
Lemma save_nonempty market_slug activities output_dir w :
  activities ≠ [] →
  save_market_to_csv market_slug activities output_dir w =
  if trade_count activities <? 30 then
    (w, Ok (RSkipped market_slug (trade_count activities)))
  else if decide (csv_path market_slug output_dir ∈ unwritable w) then
    (makedirs output_dir w, Err OSError)
  else
    match write_rows activities writeheader with
    | (content, None) =>
        (write_file (csv_path market_slug output_dir) content
           (makedirs output_dir w),
         Ok (RPath (csv_path market_slug output_dir)))
    | (content, Some e) =>
        (write_file (csv_path market_slug output_dir) content
           (makedirs output_dir w),
         Err e)
    end.
Proof. by destruct activities. Qed.

(** Running the Gate again on the world it left changes nothing. *)
Lemma save_twice market_slug activities output_dir w :
  save_market_to_csv market_slug activities output_dir
    (save_market_to_csv market_slug activities output_dir w).1
  = save_market_to_csv market_slug activities output_dir w.
Proof.
  destruct (decide (activities = [])) as [->|Hne]; [done|].
  rewrite (save_nonempty _ _ _ w) by done.
  destruct (trade_count activities <? 30) eqn:Hcount.
  { cbn [fst]. rewrite save_nonempty by done. by rewrite Hcount. }
  destruct (decide (csv_path market_slug output_dir ∈ unwritable w))
    as [Hlocked|Hfree].
  { cbn [fst]. rewrite save_nonempty, Hcount, makedirs_idemp by done.
    by rewrite decide_True. }
  destruct (write_rows activities writeheader) as [content [e|]] eqn:Hrows;
    cbn [fst]; rewrite save_nonempty, Hcount, makedirs_write_file by done;
    rewrite decide_False by done; rewrite Hrows, write_file_idemp; done.
Qed.

(** ** Claims about the Persistence Gate *)



(** C9: persisting the same group to the same destination again leaves the
    destination exactly as the first time (same files, same content, same
    result): the file is overwritten, never appended to, and its content is
    the text computed from the records of the group in their order. *)
Theorem save_idempotent market_slug activities output_dir w :
  let once := save_market_to_csv market_slug activities output_dir w in
  save_market_to_csv market_slug activities output_dir once.1 = once
  ∧ (∀ filepath, once.2 = Ok (RPath filepath) →
       filepath = csv_path market_slug output_dir
       ∧ files once.1 !! filepath = Some (csv_text activities)).
Proof.
  intros once. subst once. split; [apply save_twice|].
  intros filepath.
  destruct (decide (activities = [])) as [->|Hne]; [done|].
  rewrite save_nonempty by done.
  destruct (trade_count activities <? 30); [done|].
  destruct (decide _) as [|Hfree]; [done|].
  destruct (write_rows activities writeheader) as [content [e|]] eqn:Hrows;
    [done|].
  cbn [fst snd]. intros [= <-]. split; [done|].
  cbn [files write_file]. rewrite lookup_insert_eq. f_equal.
  pose proof (write_rows_none _ _ _ Hrows) as Hall.
  rewrite write_rows_all_render in Hrows by done.
  by injection Hrows as <-.
Qed.

Lemma save_idempotent_witness :
  files (save_market_to_csv (SStr "market-a") (trades_of "market-a" 30)
           "/data/alice" empty_world).1 !! "/data/alice/market-a.csv"
  = Some (csv_text (trades_of "market-a" 30)).
Proof.
  apply (proj2 (save_idempotent (SStr "market-a") (trades_of "market-a" 30)
                  "/data/alice" empty_world) "/data/alice/market-a.csv").
  vm_compute. reflexivity.
Defined.

Example csv_text_sample :
  csv_text [trade "m,1" 1700000000 "0xabc"] =
  "timestamp,datetime,type,side,proxyWallet,conditionId,asset,outcomeIndex,"
  +:+ "outcome,size,usdcSize,price,transactionHash,title,slug,eventSlug,icon,"
  +:+ "name,pseudonym,bio,profileImage,profileImageOptimized" +:+ line_terminator
  +:+ "1700000000,2023-11-14 22:13:20,TRADE,BUY,,,,,,,,,0xabc,,"
  +:+ String dquote "m,1" +:+ String dquote ",,,,,,," +:+ line_terminator.
Proof. vm_compute. reflexivity. Qed.

(** ** The Orchestrator's loop *)

Lemma save_loop_app before after output_dir w acc :
  save_loop (before ++ after) output_dir w acc =
  match save_loop before output_dir w acc with
  | (w1, Ok acc1) => save_loop after output_dir w1 acc1
  | (w1, Err e) => (w1, Err e)
  end.
Proof.
  revert w acc. induction before as [|[slug acts] before IH]; intros w acc.
  - reflexivity.
  - simpl. destruct (save_market_to_csv slug acts output_dir w) as [w' [[]|e]];
      by rewrite ?IH.
Qed.

Lemma group_by_market_nil : group_by_market [] = [].
Proof. reflexivity. Qed.

(** ** Claims about the Orchestrator *)

(** C2, as stated, fails: with two groups of 30 trades and a destination in
    which the file of the first cannot be opened, [OSError] escapes
    [process_wallet] and the file of the second group is never written. *)
Lemma write_failure_aborts_run :
  (process_wallet two_markets "alice" "0xabc" 1000 locked_world).2
    = Escaped OSError
  ∧ files (process_wallet two_markets "alice" "0xabc" 1000 locked_world).1
      !! "/root/mcollect/data/alice/market-b.csv" = None
  ∧ ¬ write_failures_isolated.
Proof.
  assert (files (process_wallet two_markets "alice" "0xabc" 1000 locked_world).1
            !! "/root/mcollect/data/alice/market-b.csv" = None) as Hnone
    by (vm_compute; reflexivity).
  split; [vm_compute; reflexivity|]. split; [exact Hnone|].
  intros Hclaim.
  specialize (Hclaim two_markets "alice" "0xabc" 1000 locked_world
                (SStr "market-b") (trades_of "market-b" 30)).
  cbv zeta in Hclaim.
  assert (csv_path (SStr "market-b") (path_join OUTPUT_ROOT "alice")
          = "/root/mcollect/data/alice/market-b.csv") as Hpath
    by (vm_compute; reflexivity).
  rewrite Hpath, Hnone in Hclaim.
  assert (None = Some (csv_text (trades_of "market-b" 30))) as Habsurd;
    [|discriminate].
  apply Hclaim.
  - apply list_elem_of_lookup_2 with 1. vm_compute. reflexivity.
  - vm_compute. lia.
  - vm_compute. reflexivity.
  - unfold locked_world. simpl. rewrite elem_of_singleton. discriminate.
Qed.

(** C2 (amended): a failure while persisting one group escapes the
    Orchestrator and ends the loop there: the groups before it have been
    processed, the groups after it are not, and the destination is left as
    the failing call left it. *)
Theorem process_wallet_stops_at_failure src wallet_name wallet_address
    max_records w before market_slug market_activities after w1 acc1 w2 e :
  let batch :=
    all_activities (get_all_user_activity src wallet_address max_records) in
  let output_dir := path_join OUTPUT_ROOT wallet_name in
  group_by_market (remove_duplicates batch)
    = before ++ (market_slug, market_activities) :: after →
  save_loop before output_dir w (Summary 0 []) = (w1, Ok acc1) →
  save_market_to_csv market_slug market_activities output_dir w1 = (w2, Err e) →
  process_wallet src wallet_name wallet_address max_records w = (w2, Escaped e).
Proof.
  intros batch output_dir Hgroups Hbefore Hsave. unfold process_wallet.
  fold batch. fold output_dir.
  destruct batch as [|a rest] eqn:Hbatch.
  { change (remove_duplicates []) with (@nil activity) in Hgroups.
    rewrite group_by_market_nil in Hgroups. by destruct before. }
  rewrite Hgroups, save_loop_app, Hbefore. simpl. by rewrite Hsave.
Qed.

Lemma process_wallet_stops_at_failure_witness :
  process_wallet two_markets "alice" "0xabc" 1000 locked_world
  = (makedirs "/root/mcollect/data/alice" locked_world, Escaped OSError).
Proof.
  apply (process_wallet_stops_at_failure two_markets "alice" "0xabc" 1000
           locked_world [] (SStr "market-a") (trades_of "market-a" 30)
           [(SStr "market-b", trades_of "market-b" 30)]
           locked_world (Summary 0 [])).
  - vm_compute. reflexivity.
  - reflexivity.
  - vm_compute. reflexivity.
Defined.

(** * Further properties *)

(** ** The Fetcher *)

(** X1: the batch is the concatenation, in request order, of the pages the source
    gave to the requests issued: no record of a page is dropped, cut off or
    moved. *)
Theorem fetch_concatenates_pages src wallet max_records :
  let r := get_all_user_activity src wallet max_records in
  all_activities r = concat ((λ q, page_data (src q)) <$> requests r).
Proof.
  intros r. subst r. unfold get_all_user_activity.
  apply (fetch_loop_rule src wallet max_records
    (λ all _ sent, all = concat ((λ q, page_data (src q)) <$> sent))
    (λ r, all_activities r
          = concat ((λ q, page_data (src q)) <$> requests r))); simpl.
  - done.
  - intros all off sent -> _ _ Hsrc.
    rewrite fmap_app, concat_app. simpl. rewrite Hsrc. simpl.
    by rewrite !app_nil_r.
  - intros all off sent -> _ _ Hsrc.
    rewrite fmap_app, concat_app. simpl. rewrite Hsrc. simpl.
    by rewrite !app_nil_r.
  - intros all off sent data -> _ _ Hsrc _ _.
    rewrite fmap_app, concat_app. simpl. rewrite Hsrc. simpl.
    by rewrite app_nil_r.
  - intros all off sent data -> _ _ Hsrc _.
    rewrite fmap_app, concat_app. simpl. rewrite Hsrc. simpl.
    by rewrite app_nil_r.
  - reflexivity.
Qed.

(** X2: the [i]-th request asks for the given wallet, 500 records, offset
    [500 * i]: offsets go up by one page at a time, none is asked twice and
    none is skipped. *)
Theorem fetch_requests_consecutive src wallet max_records i q :
  requests (get_all_user_activity src wallet max_records) !! i = Some q →
  q = Request wallet 500 (500 * Z.of_nat i) ∧ i < 21.
Proof.
  destruct (fetch_requests src wallet max_records) as (k & Hk & ->).
  unfold page_requests. rewrite list_lookup_fmap.
  destruct (seq 0 k !! i) as [j|] eqn:Hj; [|done].
  apply lookup_seq in Hj as [-> Hi]. simpl. intros [= <-].
  split; [done | lia].
Qed.

Lemma fetch_requests_consecutive_witness :
  Request "0xabc" 500 500 = Request "0xabc" 500 (500 * Z.of_nat 1) ∧ 1 < 21.
Proof.
  apply (fetch_requests_consecutive three_pages "0xabc" 2000 1).
  vm_compute. reflexivity.
Defined.

Lemma length_concat_pages (pages : nat → list activity) k :
  (∀ i, i < k → length (pages i) = 500) →
  length (concat (pages <$> seq 0 k)) = 500 * k.
Proof.
  induction k as [|k IH]; intros Hlen; [reflexivity|].
  rewrite seq_S, fmap_app, concat_app, length_app. simpl.
  rewrite app_nil_r, IH by (intros; apply Hlen; lia).
  rewrite Hlen by lia. lia.
Qed.

(** The loop after [j] full pages. *)
Lemma fetch_loop_full_prefix src wallet max_records (pages : nat → list activity) k j :
  j ≤ k → k ≤ 20 → 500 * k < max_records →
  (∀ i, i < k →
     src (Request wallet 500 (500 * Z.of_nat i)) = Json (pages i)
     ∧ length (pages i) = 500) →
  fetch_loop src wallet max_records [] 0%Z [] =
  fetch_loop src wallet max_records (concat (pages <$> seq 0 j))
    (500 * Z.of_nat j)%Z (page_requests wallet j).
Proof.
  intros Hjk Hk Hmax Hpages. induction j as [|j IH]; [reflexivity|].
  rewrite IH by lia.
  destruct (Hpages j ltac:(lia)) as [Hsrc Hlen].
  rewrite (fetch_loop_continue _ _ _ _ _ _ (pages j)); [| |lia|done|lia].
  - rewrite page_requests_snoc, seq_S, fmap_app, concat_app. simpl.
    rewrite app_nil_r. unfold limit. f_equal. lia.
  - rewrite length_concat_pages by (intros; apply Hpages; lia). lia.
Qed.

(** X3: a failed request, or an empty page, ends pagination and keeps what the
    pages before it gave: after [k] full pages the batch is those [k] pages
    and [k + 1] requests were made. *)
Theorem fetch_keeps_pages_before_failure src wallet max_records
    (pages : nat → list activity) k :
  k ≤ 20 → 500 * k < max_records →
  (∀ i, i < k →
     src (Request wallet 500 (500 * Z.of_nat i)) = Json (pages i)
     ∧ length (pages i) = 500) →
  src (Request wallet 500 (500 * Z.of_nat k)) = RequestException
  ∨ src (Request wallet 500 (500 * Z.of_nat k)) = Json [] →
  get_all_user_activity src wallet max_records =
  Fetched (concat (pages <$> seq 0 k)) (page_requests wallet (S k)).
Proof.
  intros Hk Hmax Hpages Hlast. unfold get_all_user_activity.
  rewrite (fetch_loop_full_prefix src wallet max_records pages k k) by done.
  rewrite fetch_loop_eq. cbv zeta. unfold limit.
  replace (length (concat (pages <$> seq 0 k)) <? max_records) with true.
  2:{ symmetry. apply Nat.ltb_lt.
      rewrite length_concat_pages by (intros; apply Hpages; lia). lia. }
  replace (500 * Z.of_nat k <=? 10000)%Z with true
    by (symmetry; apply Z.leb_le; lia).
  rewrite page_requests_snoc. unfold limit. simpl andb.
  destruct Hlast as [-> | ->]; reflexivity.
Qed.

Lemma fetch_keeps_pages_before_failure_witness :
  get_all_user_activity fails_after_one "0xabc" 2000 =
  Fetched (concat ((λ _, full_page) <$> seq 0 1)) (page_requests "0xabc" 2).
Proof.
  apply (fetch_keeps_pages_before_failure fails_after_one "0xabc" 2000
           (λ _, full_page) 1).
  - lia.
  - lia.
  - intros i Hi. assert (i = 0) as -> by lia.
    split; [reflexivity | apply length_replicate].
  - left. reflexivity.
Defined.

(** X4: against full pages the Fetcher stops at the first page boundary at or
    past the budget, or after 21 pages: [k] requests and [500 * k] records,
    where every page asked for was still within the budget. *)
Theorem fetch_budget_full_pages src wallet max_records :
  full_pages src →
  ∃ k, requests (get_all_user_activity src wallet max_records)
         = page_requests wallet k
       ∧ length (all_activities (get_all_user_activity src wallet max_records))
         = 500 * k
       ∧ k ≤ 21
       ∧ (k = 21 ∨ max_records ≤ 500 * k)
       ∧ (∀ j, j < k → 500 * j < max_records).
Proof.
  intros Hfull. unfold get_all_user_activity.
  apply (fetch_loop_rule src wallet max_records
    (λ all off sent, ∃ k, k ≤ 21 ∧ off = (limit * Z.of_nat k)%Z
                          ∧ sent = page_requests wallet k
                          ∧ length all = 500 * k
                          ∧ (∀ j, j < k → 500 * j < max_records))
    (λ r, ∃ k, requests r = page_requests wallet k
               ∧ length (all_activities r) = 500 * k
               ∧ k ≤ 21
               ∧ (k = 21 ∨ max_records ≤ 500 * k)
               ∧ (∀ j, j < k → 500 * j < max_records))).
  - intros all off sent (k & Hk & -> & -> & Hlen & Hpast) Hc. simpl.
    exists k. repeat split; try done. unfold limit in Hc. lia.
  - intros all off sent _ _ _ Hsrc.
    destruct (Hfull (Request wallet limit off)) as (d & Hd & _). congruence.
  - intros all off sent _ _ _ Hsrc.
    destruct (Hfull (Request wallet limit off)) as (d & Hd & Hl).
    rewrite Hsrc in Hd. injection Hd as <-. discriminate.
  - intros all off sent data _ _ _ Hsrc _ Hshort.
    destruct (Hfull (Request wallet limit off)) as (d & Hd & Hl).
    rewrite Hsrc in Hd. injection Hd as <-. unfold limit in Hshort. lia.
  - intros all off sent data (k & _ & -> & -> & Hlen & Hpast) Hlt Hoff Hsrc _.
    destruct (Hfull (Request wallet limit (limit * Z.of_nat k)))
      as (d & Hd & Hl).
    rewrite Hsrc in Hd. injection Hd as <-.
    exists (S k). unfold limit in Hoff.
    split; [lia|]. split; [unfold limit; lia|].
    split; [by rewrite page_requests_snoc|].
    split; [rewrite length_app; lia|].
    intros j Hj. destruct (decide (j = k)) as [->|]; [lia | apply Hpast; lia].
  - exists 0. split; [lia|]. split; [unfold limit; lia|].
    split; [reflexivity|]. split; [reflexivity|]. intros j Hj. lia.
Qed.

Lemma fetch_budget_full_pages_witness :
  ∃ k, requests (get_all_user_activity always_full "0xabc" 600)
         = page_requests "0xabc" k
       ∧ length (all_activities (get_all_user_activity always_full "0xabc" 600))
         = 500 * k
       ∧ k ≤ 21
       ∧ (k = 21 ∨ 600 ≤ 500 * k)
       ∧ (∀ j, j < k → 500 * j < 600).
Proof.
  apply (fetch_budget_full_pages always_full "0xabc" 600).
  exact always_full_full_pages.
Defined.

(** ** The Deduplicator *)

Lemma dedup_foldl_distinct past st rest :
  dedup_inv past st → unique_activities st = past →
  NoDup (unique_key <$> (past ++ rest)) →
  unique_activities (foldl dedup_step st rest) = past ++ rest.
Proof.
  revert past st. induction rest as [|a rest IH]; intros past st Hinv Hu Hnd.
  - simpl. by rewrite app_nil_r.
  - simpl. rewrite cons_middle, app_assoc in Hnd |- *.
    apply IH; [by apply dedup_inv_step | | done].
    unfold dedup_step. rewrite decide_False; [simpl; by rewrite Hu|].
    intros Hin. apply (inv_seen _ _ Hinv) in Hin.
    rewrite !fmap_app in Hnd. apply NoDup_app in Hnd as [Hnd _].
    apply NoDup_app in Hnd as (_ & Hdisj & _).
    apply (Hdisj _ Hin). simpl. left.
Qed.

Lemma remove_duplicates_fixed activities :
  NoDup (unique_key <$> activities) → remove_duplicates activities = activities.
Proof.
  intros Hnd. unfold remove_duplicates.
  by apply (dedup_foldl_distinct [] dedup_init activities dedup_inv_init).
Qed.

(** X6: a batch whose records all have different identities comes back as it
    is. *)
Theorem remove_duplicates_distinct activities :
  NoDup (unique_key <$> activities) → remove_duplicates activities = activities.
Proof. apply remove_duplicates_fixed. Qed.

Lemma remove_duplicates_distinct_witness :
  remove_duplicates [trade_1; split_a; no_slug] = [trade_1; split_a; no_slug].
Proof.
  apply (remove_duplicates_distinct [trade_1; split_a; no_slug]).
  apply (bool_decide_unpack _). vm_compute. exact I.
Defined.

(** X7: deduplicating twice is the same as deduplicating once. *)
Theorem remove_duplicates_idempotent activities :
  remove_duplicates (remove_duplicates activities) = remove_duplicates activities.
Proof.
  apply remove_duplicates_fixed, NoDup_fmap_of_filter. intros k.
  destruct (remove_duplicates_inv activities) as [_ _ Hfirst].
  fold (remove_duplicates activities) in Hfirst.
  rewrite Hfirst, length_take. lia.
Qed.

Lemma dedup_count_foldl st rest :
  duplicates_count (foldl dedup_step st rest)
  + length (unique_activities (foldl dedup_step st rest))
  = duplicates_count st + length (unique_activities st) + length rest.
Proof.
  revert st. induction rest as [|a rest IH]; intros st; simpl; [lia|].
  rewrite IH. unfold dedup_step.
  destruct (decide _); simpl; rewrite ?length_app; simpl; lia.
Qed.

(** X8: the number reported as "Removed N duplicates" is exactly the number of
    records left out: it and the size of the result add up to the size of
    the input, so the result is never longer than the input. *)
Theorem remove_duplicates_count activities :
  duplicates_count (foldl dedup_step dedup_init activities)
  + length (remove_duplicates activities) = length activities.
Proof.
  unfold remove_duplicates. by rewrite dedup_count_foldl.
Qed.

(** ** The Grouper *)

Lemma markets_append_concat slug a markets :
  concat (markets_append slug a markets).*2 ≡ₚ concat markets.*2 ++ [a].
Proof.
  induction markets as [|[k l] rest IH]; simpl; [done|].
  destruct (decide (k = slug)); simpl.
  - rewrite <- !app_assoc. apply Permutation_app_head.
    apply Permutation_app_comm.
  - rewrite IH. by rewrite app_assoc.
Qed.

Lemma group_foldl_concat markets rest :
  concat (foldl group_step markets rest).*2
  ≡ₚ concat markets.*2 ++ filter (λ a, truthy (slug_of a) = true) rest.
Proof.
  revert markets. induction rest as [|a rest IH]; intros markets; simpl.
  - by rewrite app_nil_r.
  - rewrite IH. unfold group_step. rewrite filter_cons.
    destruct (truthy (slug_of a)) eqn:Ht.
    + rewrite decide_True by done. rewrite markets_append_concat.
      by rewrite <- app_assoc.
    + rewrite decide_False by done. done.
Qed.

(** X9: grouping neither loses nor repeats a record: the groups put end to end
    hold exactly the records of the batch that have a group key, each as
    often as the batch has it; and no group is empty. *)
Theorem group_by_market_keeps_records activities :
  concat (group_by_market activities).*2
    ≡ₚ filter (λ a, truthy (slug_of a) = true) activities
  ∧ (∀ k l, (k, l) ∈ group_by_market activities → l ≠ []).
Proof.
  split.
  - unfold group_by_market. by rewrite group_foldl_concat.
  - rewrite group_by_market_groups_of.
    intros k l (k' & [= -> ->] & Hk)%list_elem_of_fmap.
    apply elem_of_first_occurrences, group_keys_elem_of in Hk
      as (_ & a & Ha & Hslug).
    intros Hnil.
    eapply filter_nil_not_elem_of; [exact Hnil | exact Hslug | exact Ha].
Qed.

Lemma group_by_market_keeps_records_witness :
  [split_b; split_b] ≠ [].
Proof.
  apply (proj2 (group_by_market_keeps_records
                  [split_b; no_slug; trade_1; split_b]) (SStr "market-b")).
  apply list_elem_of_lookup_2 with 0. vm_compute. reflexivity.
Defined.

(** X10: records without a group key leave no trace in the grouping: dropping
    them from the batch first gives the same groups. *)
Theorem group_by_market_ignores_keyless activities :
  group_by_market (filter (λ a, truthy (slug_of a) = true) activities)
  = group_by_market activities.
Proof.
  unfold group_by_market. generalize (@nil (scalar * list activity)) as markets.
  induction activities as [|a rest IH]; intros markets; [done|].
  rewrite filter_cons. simpl.
  destruct (truthy (slug_of a)) eqn:Ht.
  - rewrite decide_True by done. simpl. apply IH.
  - rewrite decide_False by done.
    replace (group_step markets a) with markets
      by (unfold group_step; by rewrite Ht).
    apply IH.
Qed.

(** ** The Persistence Gate *)




Lemma write_rows_app good rest written :
  forallb renders good = true →
  write_rows (good ++ rest) written
  = write_rows rest (written +:+ foldr String.append "" (line_of <$> good)).
Proof.
  revert written. induction good as [|a good IH]; intros written Hall.
  - simpl. by rewrite string_app_nil_r.
  - simpl in Hall. apply andb_prop in Hall as [Ha Hgood].
    unfold renders in Ha. simpl. unfold line_of.
    destruct (csv_line a) as [line|e]; [|done].
    rewrite IH by done. by rewrite string_app_assoc.
Qed.

(** X12: a record whose row cannot be built stops the writing where it stands:
    the exception leaves the Gate, and the file is left holding the header
    and the lines of the records before that one, nothing of it or after. *)
Theorem save_leaves_partial_file market_slug good bad rest output_dir w e :
  30 ≤ trade_count (good ++ bad :: rest) →
  csv_path market_slug output_dir ∉ unwritable w →
  forallb renders good = true →
  csv_line bad = Err e →
  save_market_to_csv market_slug (good ++ bad :: rest) output_dir w
  = (write_file (csv_path market_slug output_dir) (csv_text good)
       (makedirs output_dir w),
     Err e).
Proof.
  intros Hcount Hfree Hgood Hbad.
  rewrite save_nonempty by (by destruct good).
  apply Nat.ltb_ge in Hcount as ->. rewrite decide_False by done.
  rewrite write_rows_app by done. simpl. by rewrite Hbad.
Qed.

Lemma save_leaves_partial_file_witness :
  save_market_to_csv (SStr "market-a")
    (trades_of "market-a" 30 ++ bad_timestamp :: [split_a]) "/data" empty_world
  = (write_file (csv_path (SStr "market-a") "/data")
       (csv_text (trades_of "market-a" 30)) (makedirs "/data" empty_world),
     Err ValueError).
Proof.
  apply (save_leaves_partial_file (SStr "market-a") (trades_of "market-a" 30)
           bad_timestamp [split_a] "/data" empty_world ValueError).
  - vm_compute. lia.
  - apply not_elem_of_empty.
  - vm_compute. reflexivity.
  - vm_compute. reflexivity.
Defined.

(** X13: every column but the derived one holds the text of the record's entry of
    that name, and nothing when the record has no such entry (or has [null]
    there): no default such as 0 is ever written. *)
Theorem row_cells_follow_record a row i k :
  make_row a = Ok row →
  fieldnames !! i = Some k → k ≠ "datetime" →
  ((λ key, csv_str (row_get row key)) <$> fieldnames) !! i
  = Some (match fields a !! k with Some v => csv_str v | None => "" end).
Proof.
  intros Hrow Hi Hk. unfold make_row in Hrow.
  destruct (datetime_cell a) as [dt|e]; [|done].
  simpl in Hrow. injection Hrow as <-.
  rewrite list_lookup_fmap, Hi. simpl. f_equal.
  assert (∀ v, csv_str (default (SStr "") v)
               = match v with Some v => csv_str v | None => "" end) as Hcell
    by (by intros [v|]).
  do 22 (destruct i as [|i];
    [injection Hi as <-; first [done | apply Hcell]|]).
  done.
Qed.

Lemma row_cells_follow_record_witness :
  ∃ row, make_row trade_1 = Ok row
         ∧ ((λ key, csv_str (row_get row key)) <$> fieldnames) !! 10 = Some "".
Proof.
  assert (∃ row, make_row trade_1 = Ok row) as [row Hrow]
    by (vm_compute; eauto).
  exists row. split; [done|].
  rewrite (row_cells_follow_record trade_1 row 10 "usdcSize" Hrow);
    [vm_compute; reflexivity | reflexivity | discriminate].
Defined.

(** ** The Orchestrator *)

(** What the Gate returns tells what it did. *)
Lemma save_result_cases market_slug activities output_dir w w' r :
  activities ≠ [] →
  save_market_to_csv market_slug activities output_dir w = (w', Ok r) →
  (trade_count activities < 30 ∧ w' = w
   ∧ r = RSkipped market_slug (trade_count activities))
  ∨ (30 ≤ trade_count activities
     ∧ r = RPath (csv_path market_slug output_dir)
     ∧ files w' !! csv_path market_slug output_dir = Some (csv_text activities)).
Proof.
  intros Hne. rewrite save_nonempty by done.
  destruct (trade_count activities <? 30) eqn:Hcount.
  { apply Nat.ltb_lt in Hcount. intros [= <- <-]. by left. }
  apply Nat.ltb_ge in Hcount.
  destruct (decide _); [done|].
  destruct (write_rows activities writeheader) as [content [e|]] eqn:Hrows;
    [done|].
  intros [= <- <-]. right. split; [done|]. split; [done|].
  simpl. rewrite lookup_insert_eq. f_equal.
  pose proof (write_rows_none _ _ _ Hrows) as Hall.
  rewrite write_rows_all_render in Hrows by done. by injection Hrows as <-.
Qed.

Lemma save_loop_summary markets output_dir w acc w' s :
  Forall (λ g, g.2 ≠ []) markets →
  save_loop markets output_dir w acc = (w', Ok s) →
  saved_count s
  = saved_count acc + length (filter (λ g, 30 ≤ trade_count g.2) markets)
  ∧ skipped_markets s
    = skipped_markets acc
      ++ ((λ g, (g.1, trade_count g.2))
            <$> filter (λ g, trade_count g.2 < 30) markets).
Proof.
  intros Hne. revert w acc.
  induction Hne as [|[k l] rest Hl Hrest IH]; intros w acc Hloop.
  - simpl in Hloop. injection Hloop as <- <-.
    split; [simpl; lia | by rewrite app_nil_r].
  - simpl in Hloop, Hl.
    destruct (save_market_to_csv k l output_dir w) as [w1 [r|e]] eqn:Hsave;
      [|done].
    rewrite !filter_cons. simpl.
    destruct (save_result_cases _ _ _ _ _ _ Hl Hsave)
      as [(Hlow & -> & ->) | (Hhigh & -> & _)].
    + apply IH in Hloop as [-> ->]. simpl.
      rewrite decide_False, decide_True by lia.
      split; [done|]. by rewrite <- app_assoc.
    + apply IH in Hloop as [-> ->]. simpl.
      rewrite decide_True, decide_False by lia.
      split; [simpl; lia | done].
Qed.

Lemma remove_duplicates_nil : remove_duplicates [] = [].
Proof. reflexivity. Qed.

Lemma groups_nonempty activities :
  Forall (λ g, g.2 ≠ []) (group_by_market activities).
Proof.
  apply Forall_forall. intros [k l] Hkl. simpl.
  rewrite group_by_market_groups_of in Hkl.
  apply list_elem_of_fmap in Hkl as (k' & [= -> ->] & Hk).
  apply elem_of_first_occurrences, group_keys_elem_of in Hk
    as (_ & a & Ha & Hslug).
  intros Hnil.
  eapply filter_nil_not_elem_of; [exact Hnil | exact Hslug | exact Ha].
Qed.

(** X14: a run that completes accounts for every group once: the groups with at
    least 30 trades are counted as saved, the others are listed as skipped,
    in group order, each with its number of trades. *)
Theorem process_wallet_summary src wallet_name wallet_address max_records w w' s :
  process_wallet src wallet_name wallet_address max_records w
    = (w', Completed s) →
  let markets :=
    group_by_market (remove_duplicates
      (all_activities (get_all_user_activity src wallet_address max_records))) in
  saved_count s = length (filter (λ g, 30 ≤ trade_count g.2) markets)
  ∧ skipped_markets s
    = (λ g, (g.1, trade_count g.2))
        <$> filter (λ g, trade_count g.2 < 30) markets
  ∧ saved_count s + length (skipped_markets s) = length markets.
Proof.
  intros Hrun markets. unfold process_wallet in Hrun. fold markets in Hrun.
  destruct (all_activities _) as [|a rest] eqn:Hbatch; [done|].
  destruct (save_loop markets _ w _) as [w1 [s1|e]] eqn:Hloop; [|done].
  injection Hrun as <- <-.
  apply save_loop_summary in Hloop as [Hsaved Hskipped];
    [|apply groups_nonempty].
  simpl in Hsaved, Hskipped. split; [done|]. split; [done|].
  rewrite Hsaved, Hskipped, length_fmap.
  clear. induction markets as [|g markets IH]; [done|].
  rewrite !filter_cons.
  destruct (decide (30 ≤ trade_count g.2)), (decide (trade_count g.2 < 30));
    simpl; lia.
Qed.

Lemma process_wallet_summary_witness :
  let markets :=
    group_by_market (remove_duplicates
      (all_activities (get_all_user_activity mixed_markets "0xabc" 1000))) in
  1 = length (filter (λ g, 30 ≤ trade_count g.2) markets)
  ∧ [(SStr "market-b", 5)]
    = (λ g, (g.1, trade_count g.2))
        <$> filter (λ g, trade_count g.2 < 30) markets
  ∧ 1 + 1 = length markets.
Proof.
  apply (process_wallet_summary mixed_markets "alice" "0xabc" 1000 empty_world
           (process_wallet mixed_markets "alice" "0xabc" 1000 empty_world).1
           (Summary 1 [(SStr "market-b", 5)])).
  vm_compute. reflexivity.
Defined.





(** X16: when the Fetcher gets nothing (a budget of 0, a first request that fails,
    or an empty first page) the run ends with "No activities found" and the
    destination is left as it was. *)
Theorem process_wallet_no_activities src wallet_name wallet_address max_records w :
  max_records = 0
  ∨ src (Request wallet_address 500 0) = RequestException
  ∨ src (Request wallet_address 500 0) = Json [] →
  process_wallet src wallet_name wallet_address max_records w = (w, NoActivities).
Proof.
  intros Hnothing. unfold process_wallet, get_all_user_activity.
  rewrite fetch_loop_eq. cbv zeta. unfold limit.
  destruct Hnothing as [-> | [Hsrc | Hsrc]]; [done| |].
  - destruct (_ && _); [by rewrite Hsrc | done].
  - destruct (_ && _); [by rewrite Hsrc | done].
Qed.

Lemma process_wallet_no_activities_witness :
  process_wallet (λ _, RequestException) "alice" "0xabc" 1000 empty_world
  = (empty_world, NoActivities).
Proof.
  apply (process_wallet_no_activities (λ _, RequestException)).
  right. left. reflexivity.
Defined.

(** ** Strings *)

Lemma string_app_cons c (s t : string) : String c s +:+ t = String c (s +:+ t).
Proof. reflexivity. Qed.

Lemma string_app_nil_l (s : string) : "" +:+ s = s.
Proof. reflexivity. Qed.

Lemma string_app_eq_nil (s t : string) : s +:+ t = "" → s = "" ∧ t = "".
Proof.
  destruct s as [|c s]; intros H.
  - change (t = "") in H. by subst.
  - change (String c (s +:+ t) = "") in H. discriminate.
Qed.

Lemma string_eqb_true (s t : string) : String.eqb s t = true → s = t.
Proof. apply String.eqb_eq. Qed.

Lemma rstrip_app_fixed (s t : string) :
  t ≠ "" → rstrip t = t → rstrip (s +:+ t) = s +:+ t.
Proof.
  intros Hne Ht. induction s as [|c s IH]; [done|].
  rewrite string_app_cons. simpl. rewrite IH.
  destruct (s +:+ t) eqn:Hst; [|done].
  by apply string_app_eq_nil in Hst as [_ ->].
Qed.

Lemma rstrip_app_space (s : string) c :
  is_space c = true → rstrip (s +:+ String c "") = rstrip s.
Proof.
  intros Hc. induction s as [|c' s IH].
  - simpl. by rewrite Hc.
  - rewrite string_app_cons. simpl. by rewrite IH.
Qed.

Lemma skip_space_app (s t : string) :
  s ≠ "" → skip_space s = s → skip_space (s +:+ t) = s +:+ t.
Proof.
  destruct s as [|c s]; [done|]. intros _. rewrite string_app_cons. simpl.
  destruct (is_space c); [|done].
  intros Heq. exfalso.
  assert (∀ u, String.length (skip_space u) ≤ String.length u) as Hlen.
  { clear. induction u as [|c u IH]; simpl; [lia|].
    destruct (is_space c); simpl; lia. }
  specialize (Hlen s). rewrite Heq in Hlen. simpl in Hlen. lia.
Qed.

Lemma split_comma_app (name rest : string) :
  string_forall (λ c, negb (Ascii.eqb c ",")) name = true →
  split_comma (name +:+ "," +:+ rest) = Some (name, rest).
Proof.
  induction name as [|c name IH]; intros Hname; [reflexivity|].
  simpl in Hname. apply andb_prop in Hname as [Hc Hname].
  rewrite string_app_cons. simpl.
  apply negb_true_iff in Hc as ->. by rewrite IH.
Qed.

(** ** Reading the wallet file *)

Lemma read_lines_nonempty c s : read_lines (String c s) ≠ [].
Proof.
  simpl. destruct (Ascii.eqb c lf); [done|].
  destruct (Ascii.eqb c cr); [done|]. by destruct (read_lines s).
Qed.

(** What follows a line feed is read on its own. *)
Lemma read_lines_app body more :
  read_lines ((body +:+ String lf "") +:+ more)
  = read_lines (body +:+ String lf "") ++ read_lines more.
Proof.
  remember (String.length body) as n eqn:Hn. revert body Hn.
  induction n as [n IH] using (well_founded_induction lt_wf).
  intros body Hn. destruct body as [|c body].
  - reflexivity.
  - rewrite !string_app_cons. simpl in Hn. simpl.
    destruct (Ascii.eqb c lf) eqn:Hlf.
    { simpl. f_equal. apply (IH (String.length body)); [lia | done]. }
    destruct (Ascii.eqb c cr) eqn:Hcr.
    { destruct body as [|c' body].
      - reflexivity.
      - rewrite !string_app_cons. simpl in Hn.
        destruct (Ascii.eqb c' lf).
        + simpl. f_equal. apply (IH (String.length body)); [lia | done].
        + rewrite <- app_comm_cons. f_equal.
          change (String c' ((body +:+ String lf "") +:+ more))
            with ((String c' body +:+ String lf "") +:+ more).
          change (String c' (body +:+ String lf ""))
            with (String c' body +:+ String lf "").
          apply (IH (String.length (String c' body))); [simpl; lia | done]. }
    rewrite (IH (String.length body)) by (lia || done).
    destruct (read_lines (body +:+ String lf "")) as [|line lines] eqn:Hlines;
      [|done].
    destruct body; by apply read_lines_nonempty in Hlines.
Qed.

(** A text without line breaks, followed by a line feed, is one line. *)
Lemma read_lines_one body :
  string_forall (λ c, negb (Ascii.eqb c lf) && negb (Ascii.eqb c cr)) body = true →
  read_lines (body +:+ String lf "") = [body +:+ String lf ""].
Proof.
  induction body as [|c body IH]; intros Hbody; [reflexivity|].
  simpl in Hbody. apply andb_prop in Hbody as [Hc Hbody].
  apply andb_prop in Hc as [Hlf Hcr].
  apply negb_true_iff in Hlf, Hcr.
  rewrite string_app_cons. simpl. rewrite Hlf, Hcr, IH by done. done.
Qed.

Lemma string_forall_impl (P Q : ascii → bool) s :
  (∀ c, P c = true → Q c = true) →
  string_forall P s = true → string_forall Q s = true.
Proof.
  intros HPQ. induction s as [|c s IH]; [done|]. simpl.
  intros [Hc Hs]%andb_prop. rewrite (HPQ c Hc). by apply IH.
Qed.

Lemma string_forall_app P s t :
  string_forall P (s +:+ t) = string_forall P s && string_forall P t.
Proof.
  induction s as [|c s IH]; [done|].
  rewrite string_app_cons. simpl. by rewrite IH, andb_assoc.
Qed.

Lemma clean_text_spec s :
  clean_text s = true →
  s ≠ "" ∧ skip_space s = s ∧ rstrip s = s
  ∧ string_forall (λ c, negb (Ascii.eqb c lf) && negb (Ascii.eqb c cr)) s = true.
Proof.
  unfold clean_text. intros Hs.
  apply andb_prop in Hs as [Hs Hchars]. apply andb_prop in Hs as [Hs Hr].
  apply andb_prop in Hs as [Hne Hl].
  apply negb_true_iff, String.eqb_neq in Hne.
  apply String.eqb_eq in Hl, Hr.
  repeat split; try done.
  eapply string_forall_impl; [|exact Hchars].
  by intros c [? _]%andb_prop.
Qed.

(** The line written for a clean entry reads back as that entry. *)
Lemma parse_wallet_line_written name addr :
  clean_name name = true → clean_text addr = true →
  parse_wallet_line (wallet_line name addr) = Some (name, addr).
Proof.
  unfold clean_name. intros Hname Haddr.
  apply andb_prop in Hname as [Hname Hhash].
  apply andb_prop in Hname as [Hname Hcomma].
  apply clean_text_spec in Hname as (Hn_ne & Hn_l & Hn_r & _).
  apply clean_text_spec in Haddr as (Ha_ne & Ha_l & Ha_r & _).
  unfold parse_wallet_line, wallet_line.
  assert (strip (name +:+ "," +:+ addr +:+ String lf "")
          = name +:+ "," +:+ addr) as ->.
  { unfold strip. rewrite skip_space_app by done.
    rewrite <- !string_app_assoc, rstrip_app_space by reflexivity.
    rewrite string_app_assoc.
    apply rstrip_app_fixed; [discriminate | by apply rstrip_app_fixed]. }
  assert (String.eqb (name +:+ "," +:+ addr) "" = false) as ->.
  { apply String.eqb_neq. by intros [? _]%string_app_eq_nil. }
  assert (starts_with_hash (name +:+ "," +:+ addr) = false) as ->.
  { apply negb_true_iff in Hhash. destruct name as [|c name]; [done|].
    exact Hhash. }
  simpl orb. cbv iota. rewrite split_comma_app by done. cbv zeta iota beta.
  assert (strip name = name) as -> by (unfold strip; by rewrite Hn_l).
  assert (strip addr = addr) as -> by (unfold strip; by rewrite Ha_l).
  apply String.eqb_neq in Hn_ne as ->. apply String.eqb_neq in Ha_ne as ->.
  reflexivity.
Qed.

Lemma wallets_set_fresh name addr (ws : wallets) :
  name ∉ ws.*1 → wallets_set name addr ws = ws ++ [(name, addr)].
Proof.
  induction ws as [|[n a] ws IH]; intros Hfresh; [done|].
  simpl in *. apply not_elem_of_cons in Hfresh as [Hne Hfresh].
  replace (String.eqb n name) with false
    by (symmetry; apply String.eqb_neq; congruence).
  by rewrite IH.
Qed.

Lemma clean_entry_line_body name addr :
  clean_name name = true → clean_text addr = true →
  string_forall (λ c, negb (Ascii.eqb c lf) && negb (Ascii.eqb c cr))
    (name +:+ "," +:+ addr) = true.
Proof.
  unfold clean_name. intros Hname Haddr.
  apply andb_prop in Hname as [Hname _]. apply andb_prop in Hname as [Hname _].
  apply clean_text_spec in Hname as (_ & _ & _ & Hn).
  apply clean_text_spec in Haddr as (_ & _ & _ & Ha).
  rewrite !string_forall_app, Hn, Ha. reflexivity.
Qed.

Lemma read_lines_written name addr more :
  clean_name name = true → clean_text addr = true →
  read_lines (wallet_line name addr +:+ more)
  = wallet_line name addr :: read_lines more.
Proof.
  intros Hname Haddr. unfold wallet_line.
  rewrite <- !(string_app_assoc name), <- (string_app_assoc (name +:+ ",")).
  rewrite (string_app_assoc name).
  rewrite read_lines_app, read_lines_one by (by apply clean_entry_line_body).
  reflexivity.
Qed.

Lemma parse_written acc (entries : wallets) :
  forallb clean_entry entries = true →
  NoDup (acc ++ entries).*1 →
  foldl load_step acc (read_lines (wallets_text entries)) = acc ++ entries.
Proof.
  revert acc. induction entries as [|[name addr] entries IH];
    intros acc Hclean Hnd.
  - simpl. by rewrite app_nil_r.
  - simpl in Hclean. apply andb_prop in Hclean as [Hentry Hclean].
    unfold clean_entry in Hentry. simpl in Hentry.
    apply andb_prop in Hentry as [Hname Haddr].
    unfold wallets_text. simpl. fold (wallets_text entries).
    rewrite read_lines_written by done. simpl.
    unfold load_step at 2. rewrite parse_wallet_line_written by done.
    rewrite cons_middle, app_assoc in Hnd |- *.
    rewrite wallets_set_fresh.
    + by apply IH.
    + rewrite fmap_app in Hnd. apply NoDup_app in Hnd as [Hnd _].
      rewrite fmap_app in Hnd. apply NoDup_app in Hnd as (_ & Hdisj & _).
      intros Hin. apply (Hdisj _ Hin). simpl. left.
Qed.

(** ** Wallet management *)

(** X17: with no wallet file yet, [load_wallets] writes the default wallets, one
    line each, and reads them back as they are: the same names, the same
    addresses, the same order. *)
Theorem load_wallets_creates_defaults file_path (default_wallets : wallets) w :
  path_exists file_path w = false →
  file_path ∉ unwritable w →
  forallb clean_entry default_wallets = true →
  NoDup default_wallets.*1 →
  load_wallets file_path default_wallets w
  = (write_file file_path (wallets_text default_wallets) w, Ok default_wallets).
Proof.
  intros Hnew Hfree Hclean Hnd. unfold load_wallets, ensure_wallet_file.
  rewrite Hnew, decide_False by done. fold (wallets_text default_wallets).
  simpl. rewrite lookup_insert_eq. unfold parse_wallets.
  by rewrite (parse_written []).
Qed.

Lemma load_wallets_creates_defaults_witness :
  load_wallets WALLET_FILE DEFAULT_WALLETS empty_world
  = (write_file WALLET_FILE (wallets_text DEFAULT_WALLETS) empty_world,
     Ok DEFAULT_WALLETS).
Proof.
  apply (load_wallets_creates_defaults WALLET_FILE DEFAULT_WALLETS empty_world).
  - reflexivity.
  - apply not_elem_of_empty.
  - vm_compute. reflexivity.
  - apply (bool_decide_unpack _). vm_compute. exact I.
Defined.

Lemma load_wallets_existing file_path (default_wallets : wallets) w content :
  files w !! file_path = Some content →
  load_wallets file_path default_wallets w = (w, Ok (parse_wallets content)).
Proof.
  intros Hfile. unfold load_wallets, ensure_wallet_file, path_exists.
  rewrite bool_decide_true by (by rewrite Hfile). simpl. by rewrite Hfile.
Qed.

(** X18: a wallet file that is there is read as it is and never written: the
    default wallets play no part, and the destination does not change. *)
Theorem load_wallets_keeps_existing file_path (default_wallets : wallets) w content :
  files w !! file_path = Some content →
  load_wallets file_path default_wallets w = (w, Ok (parse_wallets content)).
Proof. apply load_wallets_existing. Qed.

Lemma load_wallets_keeps_existing_witness :
  load_wallets WALLET_FILE DEFAULT_WALLETS
    (write_file WALLET_FILE commented_file empty_world)
  = (write_file WALLET_FILE commented_file empty_world,
     Ok (parse_wallets commented_file)).
Proof.
  apply (load_wallets_keeps_existing WALLET_FILE DEFAULT_WALLETS
           (write_file WALLET_FILE commented_file empty_world) commented_file).
  apply lookup_insert_eq.
Defined.

Lemma read_lines_append content line :
  newline_terminated content →
  read_lines (content +:+ line) = read_lines content ++ read_lines line.
Proof.
  intros [-> | [body ->]]; [reflexivity | apply read_lines_app].
Qed.

(** X19: on a wallet file that ends with a line feed (or is empty), appending a
    wallet and loading again gives the dict loaded before with that name set
    to that address. *)
Theorem append_then_load file_path name address (default_wallets : wallets) w content :
  files w !! file_path = Some content →
  newline_terminated content →
  file_path ∉ unwritable w → file_path ∉ dirs w →
  clean_name name = true → clean_text address = true →
  (load_wallets file_path default_wallets
     (append_wallet file_path name address w).1).2
  = Ok (wallets_set name address (parse_wallets content))
  ∧ (load_wallets file_path default_wallets w).2 = Ok (parse_wallets content).
Proof.
  intros Hfile Hnl Hfree Hdir Hname Haddr. split.
  - unfold append_wallet.
    rewrite !bool_decide_false by done. simpl. rewrite Hfile. simpl.
    erewrite load_wallets_existing by apply lookup_insert_eq.
    simpl. f_equal. unfold parse_wallets.
    rewrite read_lines_append by done. rewrite foldl_app.
    rewrite <- (string_app_nil_r (wallet_line name address)).
    rewrite read_lines_written by done. simpl.
    unfold load_step at 1. by rewrite parse_wallet_line_written.
  - by erewrite load_wallets_existing.
Qed.

Lemma append_then_load_witness :
  (load_wallets WALLET_FILE DEFAULT_WALLETS
     (append_wallet WALLET_FILE "bob" "0xb0b"
        (write_file WALLET_FILE commented_file empty_world)).1).2
  = Ok (wallets_set "bob" "0xb0b" (parse_wallets commented_file))
  ∧ (load_wallets WALLET_FILE DEFAULT_WALLETS
       (write_file WALLET_FILE commented_file empty_world)).2
    = Ok (parse_wallets commented_file).
Proof.
  apply (append_then_load WALLET_FILE "bob" "0xb0b" DEFAULT_WALLETS
           (write_file WALLET_FILE commented_file empty_world) commented_file).
  - apply lookup_insert_eq.
  - right. exists ("# wallets" +:+ String lf "" +:+ "alice,0xa1"). reflexivity.
  - apply not_elem_of_empty.
  - apply not_elem_of_empty.
  - reflexivity.
  - reflexivity.
Defined.

(** Without the final line feed the appended wallet runs into the last
    line: it is not loaded as a wallet of its own. *)
Example append_without_newline :
  (load_wallets WALLET_FILE []
     (append_wallet WALLET_FILE "bob" "0xb0b"
        (write_file WALLET_FILE "alice,0xa1" empty_world)).1).2
  = Ok [("alice", "0xa1bob,0xb0b")].
Proof. vm_compute. reflexivity. Qed.

Lemma skip_space_length s : String.length (skip_space s) ≤ String.length s.
Proof.
  induction s as [|c s IH]; simpl; [lia|].
  destruct (is_space c); simpl; lia.
Qed.

Lemma skip_space_head c s : is_space c = false → skip_space (String c s) = String c s.
Proof. intros Hc. simpl. by rewrite Hc. Qed.

(** What [skip_space] leaves is empty or starts with a character that is
    not white space. *)
Lemma skip_space_cases s :
  skip_space s = "" ∨ ∃ c s', skip_space s = String c s' ∧ is_space c = false.
Proof.
  induction s as [|c s IH]; [by left|]. simpl.
  destruct (is_space c) eqn:Hc; [done|]. right. by exists c, s.
Qed.

Lemma rstrip_idemp s : rstrip (rstrip s) = rstrip s.
Proof.
  induction s as [|c s IH]; [done|]. simpl.
  destruct (rstrip s) as [|c' r] eqn:Hr.
  - destruct (is_space c) eqn:Hc; [done|]. simpl. by rewrite Hc.
  - simpl. simpl in IH. by rewrite IH.
Qed.

Lemma rstrip_head c s :
  is_space c = false → ∃ r, rstrip (String c s) = String c r.
Proof.
  intros Hc. simpl. destruct (rstrip s); [rewrite Hc|]; eauto.
Qed.

(** Stripping again changes nothing. *)
Lemma strip_idemp s : strip (strip s) = strip s.
Proof.
  unfold strip. destruct (skip_space_cases s) as [-> | (c & s' & -> & Hc)].
  - done.
  - destruct (rstrip_head c s' Hc) as [r Hr].
    rewrite Hr, skip_space_head, <- Hr by done. apply rstrip_idemp.
Qed.

Lemma parse_wallet_line_wellformed line name addr :
  parse_wallet_line line = Some (name, addr) →
  name ≠ "" ∧ addr ≠ "" ∧ strip name = name ∧ strip addr = addr.
Proof.
  unfold parse_wallet_line.
  destruct (_ || _); [done|].
  assert (∀ n a,
    (if negb (String.eqb (strip n) "") && negb (String.eqb (strip a) "")
     then Some (strip n, strip a) else None) = Some (name, addr) →
    name ≠ "" ∧ addr ≠ "" ∧ strip name = name ∧ strip addr = addr) as Hcheck.
  { intros n a. destruct (_ && _) eqn:Hne; [|done].
    apply andb_prop in Hne as [Hn Ha].
    apply negb_true_iff, String.eqb_neq in Hn, Ha.
    intros [= <- <-]. by rewrite !strip_idemp. }
  destruct (split_comma (strip line)) as [[n a]|]; [by apply Hcheck|].
  destruct (split_space (strip line)) as [|n [|a rest]]; [done | done |].
  by apply Hcheck.
Qed.

Lemma wallets_set_names name addr (ws : wallets) n :
  n ∈ (wallets_set name addr ws).*1 ↔ n = name ∨ n ∈ ws.*1.
Proof.
  induction ws as [|[n' a'] ws IH]; simpl.
  - rewrite list_elem_of_singleton, elem_of_nil. tauto.
  - destruct (String.eqb n' name) eqn:Heq; simpl.
    + apply String.eqb_eq in Heq as ->. rewrite elem_of_cons. tauto.
    + rewrite !elem_of_cons, IH. tauto.
Qed.

Lemma wallets_set_NoDup name addr (ws : wallets) :
  NoDup ws.*1 → NoDup (wallets_set name addr ws).*1.
Proof.
  induction ws as [|[n a] ws IH]; simpl; intros Hnd.
  - apply NoDup_singleton.
  - destruct (String.eqb n name) eqn:Heq; [done|]. simpl.
    apply NoDup_cons in Hnd as [Hn Hnd]. apply NoDup_cons. split; [|by apply IH].
    rewrite wallets_set_names. apply String.eqb_neq in Heq. tauto.
Qed.

Lemma wallets_set_entries name addr (ws : wallets) e :
  e ∈ wallets_set name addr ws → e = (name, addr) ∨ e ∈ ws.
Proof.
  induction ws as [|[n a] ws IH]; simpl.
  - rewrite list_elem_of_singleton. tauto.
  - destruct (String.eqb n name) eqn:Heq.
    + apply String.eqb_eq in Heq as ->. rewrite !elem_of_cons. tauto.
    + rewrite !elem_of_cons. intros [->|Hin]; [tauto|].
      apply IH in Hin. tauto.
Qed.

(** X20: whatever the file holds, the wallets loaded from it have distinct names,
    and no name or address is empty or has white space at either end. *)
Theorem parse_wallets_wellformed content :
  NoDup (parse_wallets content).*1
  ∧ (∀ name addr, (name, addr) ∈ parse_wallets content →
       name ≠ "" ∧ addr ≠ "" ∧ strip name = name ∧ strip addr = addr).
Proof.
  unfold parse_wallets.
  assert (∀ lines (ws : wallets),
    (NoDup ws.*1 ∧ ∀ name addr, (name, addr) ∈ ws →
       name ≠ "" ∧ addr ≠ "" ∧ strip name = name ∧ strip addr = addr) →
    NoDup (foldl load_step ws lines).*1
    ∧ ∀ name addr, (name, addr) ∈ foldl load_step ws lines →
        name ≠ "" ∧ addr ≠ "" ∧ strip name = name ∧ strip addr = addr) as Hgen.
  { induction lines as [|line lines IH]; intros ws Hws; [done|].
    simpl. apply IH. destruct Hws as [Hnd Hok]. unfold load_step.
    destruct (parse_wallet_line line) as [[n a]|] eqn:Hline; [|done].
    split; [by apply wallets_set_NoDup|].
    intros name addr [[= -> ->]|Hin]%wallets_set_entries; [|by apply Hok].
    by eapply parse_wallet_line_wellformed. }
  apply Hgen. split; [constructor|]. intros name addr Hin.
  by apply elem_of_nil in Hin.
Qed.

Lemma parse_wallets_wellformed_witness :
  "alice" ≠ "" ∧ "0xa1" ≠ "" ∧ strip "alice" = "alice" ∧ strip "0xa1" = "0xa1".
Proof.
  apply (proj2 (parse_wallets_wellformed commented_file)).
  apply list_elem_of_lookup_2 with 0. vm_compute. reflexivity.
Defined.

Lemma strip_app_space body c :
  is_space c = true → strip (body +:+ String c "") = strip body.
Proof.
  intros Hc. unfold strip. induction body as [|d body IH].
  - simpl. by rewrite Hc.
  - rewrite string_app_cons. simpl. destruct (is_space d) eqn:Hd; [done|].
    rewrite <- string_app_cons. by apply rstrip_app_space.
Qed.

(** X21: a blank line and a line that starts with # (after white space) are
    passed over: adding one to a file that ends with a line feed does not
    change the wallets loaded. *)
Theorem load_ignores_comments content body :
  newline_terminated content →
  string_forall (λ c, negb (Ascii.eqb c lf) && negb (Ascii.eqb c cr)) body = true →
  strip body = "" ∨ starts_with_hash (strip body) = true →
  parse_wallets (content +:+ body +:+ String lf "") = parse_wallets content.
Proof.
  intros Hnl Hbody Hskip. unfold parse_wallets.
  rewrite read_lines_append, read_lines_one, foldl_app by done. simpl.
  unfold load_step at 1, parse_wallet_line.
  rewrite strip_app_space by reflexivity.
  destruct Hskip as [-> | ->]; [done|]. by rewrite orb_true_r.
Qed.

Lemma load_ignores_comments_witness :
  parse_wallets (commented_file +:+ "  # bob,0xb0b" +:+ String lf "")
  = parse_wallets commented_file.
Proof.
  apply (load_ignores_comments commented_file "  # bob,0xb0b").
  - right. exists ("# wallets" +:+ String lf "" +:+ "alice,0xa1"). reflexivity.
  - reflexivity.
  - right. reflexivity.
Defined.

(** ** The Fetcher and its budget *)

(** X5: a page is asked for only while fewer than [max_records] records are
    held, and each earlier page brought at least 500: the [k]-th request
    implies [500 * (k - 1) < max_records].  With a budget of at most 10,000
    (the one the menu uses) this is at most 20 requests, all below offset
    10,000: the pagination ceiling is never what stops the loop. *)
Theorem fetch_requests_within_budget src wallet max_records :
  let r := get_all_user_activity src wallet max_records in
  (∀ k, length (requests r) = S k → 500 * k < max_records)
  ∧ ((Z.of_nat max_records ≤ 10000)%Z →
     length (requests r) ≤ 20
     ∧ ∀ q, q ∈ requests r → (req_offset q < 10000)%Z).
Proof.
  intros r. subst r.
  assert (∀ k, length (requests (get_all_user_activity src wallet max_records))
               = S k → 500 * k < max_records) as Hbudget.
  { unfold get_all_user_activity.
    apply (fetch_loop_rule src wallet max_records
      (λ all _ sent, 500 * length sent ≤ length all
                     ∧ ∀ k, length sent = S k → 500 * k < max_records)
      (λ r, ∀ k, length (requests r) = S k → 500 * k < max_records)); simpl.
    - intros all off sent [_ Hinv] _. exact Hinv.
    - intros all off sent [Hinv _] Hlt _ _ k. rewrite length_app. simpl. lia.
    - intros all off sent [Hinv _] Hlt _ _ k. rewrite length_app. simpl. lia.
    - intros all off sent data [Hinv _] Hlt _ _ _ _ k.
      rewrite length_app. simpl. lia.
    - intros all off sent data [Hinv _] Hlt _ _ Hfull.
      rewrite !length_app. simpl. unfold limit in Hfull. split; [lia|].
      intros k Hk. lia.
    - split; [lia | done]. }
  split; [exact Hbudget|].
  intros Hmax.
  destruct (fetch_requests src wallet max_records) as (k & Hk & Hreq).
  assert (k ≤ 20) as Hk20.
  { destruct k as [|k]; [lia|].
    specialize (Hbudget k). rewrite Hreq in Hbudget.
    unfold page_requests in Hbudget. rewrite length_fmap, length_seq in Hbudget.
    specialize (Hbudget eq_refl). lia. }
  rewrite Hreq. split.
  - unfold page_requests. by rewrite length_fmap, length_seq.
  - intros q (i & Hi & ->)%page_requests_offset. simpl. unfold limit. lia.
Qed.

Lemma fetch_requests_within_budget_witness :
  length (requests (get_all_user_activity always_full "0xabc" default_budget)) ≤ 20
  ∧ ∀ q, q ∈ requests (get_all_user_activity always_full "0xabc" default_budget) →
         (req_offset q < 10000)%Z.
Proof.
  apply (proj2 (fetch_requests_within_budget always_full "0xabc" default_budget)).
  vm_compute. discriminate.
Defined.

(** ** The menus *)

(** X22: [select_wallet_menu] passes over the lines that are not a valid choice
    and is decided by the first that is: the number after the last wallet
    means "back", a number from 1 to the number of wallets gives the wallet
    at that place in the dict; nothing else is ever returned. *)
Theorem select_wallet_menu_choice (ws : wallets) stdin r rest :
  select_wallet_menu ws stdin = Some (r, rest) →
  ∃ skipped line num,
    stdin = skipped ++ line :: rest
    ∧ Forall (λ l, select_wallet_menu ws [l] = None) skipped
    ∧ parse_int (strip line) = Some num
    ∧ ((r = None ∧ num = (Z.of_nat (length ws) + 1)%Z)
       ∨ (∃ e, r = Some e ∧ (1 ≤ num ≤ Z.of_nat (length ws))%Z
               ∧ ws !! Z.to_nat (num - 1) = Some e)).
Proof.
  induction stdin as [|l stdin IH]; [done|]. intros Hsel.
  assert (select_wallet_menu ws stdin = Some (r, rest) →
          select_wallet_menu ws [l] = None →
          ∃ skipped line num,
            l :: stdin = skipped ++ line :: rest
            ∧ Forall (λ l, select_wallet_menu ws [l] = None) skipped
            ∧ parse_int (strip line) = Some num
            ∧ ((r = None ∧ num = (Z.of_nat (length ws) + 1)%Z)
               ∨ (∃ e, r = Some e ∧ (1 ≤ num ≤ Z.of_nat (length ws))%Z
                       ∧ ws !! Z.to_nat (num - 1) = Some e))) as Hskip.
  { intros Hrest Hl.
    destruct (IH Hrest) as (skipped & line & num & -> & Hsk & Hnum & Hr).
    exists (l :: skipped), line, num. split; [done|].
    split; [by constructor | done]. }
  simpl in Hsel. simpl in Hskip.
  destruct (String.eqb (strip l) ""); [by apply Hskip|].
  destruct (parse_int (strip l)) as [num|] eqn:Hnum; [|by apply Hskip].
  destruct (num =? Z.of_nat (length ws) + 1)%Z eqn:Hback.
  { injection Hsel as <- <-. apply Z.eqb_eq in Hback.
    exists [], l, num. repeat split; [constructor | done | by left]. }
  destruct ((1 <=? num)%Z && (num <=? Z.of_nat (length ws))%Z) eqn:Hrange;
    [|by apply Hskip].
  injection Hsel as <- <-.
  apply andb_prop in Hrange as [H1 H2]. apply Z.leb_le in H1, H2.
  destruct (lookup_lt_is_Some_2 ws (Z.to_nat (num - 1)) ltac:(lia)) as [e He].
  exists [], l, num. repeat split; [constructor | done |].
  right. exists e. split; [exact He | split; [lia | exact He]].
Qed.

Lemma select_wallet_menu_choice_witness :
  ∃ skipped line num,
    ["x"; "0"; " 3 "; "1"] = skipped ++ line :: ["1"]
    ∧ Forall (λ l, select_wallet_menu DEFAULT_WALLETS [l] = None) skipped
    ∧ parse_int (strip line) = Some num
    ∧ ((Some ("account88888", "0x7f69983eb28245bba0d5083502a78744a8f66162")
          = None
        ∧ num = (Z.of_nat (length DEFAULT_WALLETS) + 1)%Z)
       ∨ (∃ e, Some ("account88888",
                     "0x7f69983eb28245bba0d5083502a78744a8f66162") = Some e
               ∧ (1 ≤ num ≤ Z.of_nat (length DEFAULT_WALLETS))%Z
               ∧ DEFAULT_WALLETS !! Z.to_nat (num - 1) = Some e)).
Proof.
  apply (select_wallet_menu_choice DEFAULT_WALLETS ["x"; "0"; " 3 "; "1"]).
  vm_compute. reflexivity.
Defined.

Lemma bind_answered {A B} (m : io A) (f : A → io B) stdin w b rest w' :
  (m ≫= f) stdin w = Answered b rest w' →
  ∃ a stdin1 w1, m stdin w = Answered a stdin1 w1
                 ∧ f a stdin1 w1 = Answered b rest w'.
Proof.
  unfold mbind, io_bind. destruct (m stdin w) as [a stdin1 w1| |]; [|done..].
  intros Hf. by exists a, stdin1, w1.
Qed.

Lemma input_answered stdin w line rest w' :
  input stdin w = Answered line rest w' → stdin = line :: rest ∧ w' = w.
Proof. destruct stdin; [done|]. by intros [= -> -> ->]. Qed.

Lemma press_enter_return_answered (ws : wallets) stdin w ws' rest w' :
  press_enter_return ws stdin w = Answered ws' rest w' → ws' = ws ∧ w' = w.
Proof.
  unfold press_enter_return.
  intros (line & stdin1 & w1 & Hin & Hret)%bind_answered.
  apply input_answered in Hin as [_ ->]. unfold mret, io_ret in Hret.
  by injection Hret as <- _ <-.
Qed.

Lemma confirmed_answered stdin w b rest w' :
  confirmed stdin w = Answered b rest w' →
  w' = w ∧ ∃ answer, stdin = answer :: rest ∧ b = is_yes (lower (strip answer)).
Proof.
  unfold confirmed.
  intros (answer & stdin1 & w1 & Hin & Hret)%bind_answered.
  apply input_answered in Hin as [-> ->]. unfold mret, io_ret in Hret.
  injection Hret as <- <- <-.
  split; [done|]. by exists answer.
Qed.

Lemma asked_if_answered (ask : bool) stdin w b rest w' :
  (if ask then confirmed else mret true) stdin w = Answered b rest w' →
  w' = w
  ∧ (ask = true → ∃ answer, stdin = answer :: rest
                            ∧ b = is_yes (lower (strip answer)))
  ∧ (ask = false → rest = stdin).
Proof.
  destruct ask.
  - intros [-> Hanswer]%confirmed_answered. by repeat split.
  - unfold mret, io_ret. intros [= <- <- <-]. by repeat split.
Qed.

Lemma on_world_answered {A} (f : world → world * result A) stdin w a rest w' :
  on_world f stdin w = Answered a rest w' → f w = (w', Ok a) ∧ rest = stdin.
Proof.
  unfold on_world. destruct (f w) as [w1 [a1|e]]; [|done].
  by intros [= -> -> ->].
Qed.

(** Appending a clean entry keeps the dict and the file in step. *)
Lemma append_keeps_in_sync wallet_file name address (ws : wallets) w w' :
  append_wallet wallet_file name address w = (w', Ok ()) →
  clean_name name = true → clean_text address = true →
  in_sync wallet_file ws w →
  in_sync wallet_file (wallets_set name address ws) w'.
Proof.
  intros Happend Hname Haddr (content & Hfile & Hnl & Hparse).
  unfold append_wallet in Happend.
  destruct (_ || _); [done|]. injection Happend as <-.
  rewrite Hfile. simpl.
  exists (content +:+ wallet_line name address).
  split; [apply lookup_insert_eq|]. split.
  - right. exists (content +:+ name +:+ "," +:+ address).
    unfold wallet_line. by rewrite !string_app_assoc.
  - unfold parse_wallets. rewrite read_lines_append by done.
    rewrite foldl_app.
    rewrite <- (string_app_nil_r (wallet_line name address)).
    rewrite read_lines_written by done. simpl.
    unfold load_step at 1. rewrite parse_wallet_line_written by done.
    unfold parse_wallets in Hparse. by rewrite Hparse.
Qed.

(** X23: [add_new_wallet_interactive] either leaves the dict and the files as
    they are, or sets one name that is not empty to one address that is not
    empty, both as typed up to white space at the ends, and appends exactly
    that line to the wallet file; a name already in the dict is only set
    after the answer y or yes; and when the name and address are clean and
    the dict was what the file reads as, it still is afterwards. *)
Theorem add_new_wallet_outcome (ws : wallets) wallet_file stdin w ws' rest w' :
  add_new_wallet_interactive ws wallet_file stdin w = Answered ws' rest w' →
  (ws' = ws ∧ w' = w)
  ∨ ∃ typed name address,
      stdin !! 0 = Some typed ∧ name = strip typed
      ∧ name ≠ "" ∧ address ≠ "" ∧ strip address = address
      ∧ ws' = wallets_set name address ws
      ∧ append_wallet wallet_file name address w = (w', Ok ())
      ∧ (name ∈ ws.*1 →
         ∃ answer, stdin !! 1 = Some answer
                   ∧ is_yes (lower (strip answer)) = true)
      ∧ (clean_name name = true → clean_text address = true →
         in_sync wallet_file ws w → in_sync wallet_file ws' w').
Proof.
  unfold add_new_wallet_interactive.
  intros (typed & stdin1 & w1 & Hin & Hrun)%bind_answered.
  apply input_answered in Hin as [-> ->]. cbv zeta in Hrun.
  destruct (String.eqb (strip typed) "") eqn:Hname.
  { left. by eapply press_enter_return_answered. }
  apply String.eqb_neq in Hname.
  apply bind_answered in Hrun as (overwrite & stdin2 & w2 & Hover & Hrun).
  apply asked_if_answered in Hover as (-> & Hasked & _).
  destruct overwrite; simpl in Hrun;
    [|left; by eapply press_enter_return_answered].
  apply bind_answered in Hrun as (line & stdin3 & w3 & Hin & Hrun).
  apply input_answered in Hin as [-> ->]. cbv zeta in Hrun.
  destruct (String.eqb (strip line) "") eqn:Haddr.
  { left. by eapply press_enter_return_answered. }
  apply String.eqb_neq in Haddr.
  apply bind_answered in Hrun as (anyway & stdin4 & w4 & Hany & Hrun).
  apply asked_if_answered in Hany as (-> & _ & _).
  destruct anyway; simpl in Hrun;
    [|left; by eapply press_enter_return_answered].
  apply bind_answered in Hrun as ([] & stdin5 & w5 & Happend & Hrun).
  apply on_world_answered in Happend as [Happend ->].
  apply press_enter_return_answered in Hrun as [-> ->].
  right. exists typed, (strip typed), (strip line).
  split; [done|]. split; [done|]. split; [done|]. split; [done|].
  split; [apply strip_idemp|]. split; [done|]. split; [done|]. split.
  - intros Hin. destruct Hasked as (answer & Hstdin & Hyes).
    { unfold wallets_has. by apply bool_decide_eq_true. }
    exists answer. split; [|done]. by rewrite Hstdin.
  - intros Hcn Hca. by apply append_keeps_in_sync.
Qed.

Lemma add_new_wallet_outcome_witness :
  in_sync WALLET_FILE
    (wallets_set "bob" "0xb0b" [("alice", "0xa1")])
    (append_wallet WALLET_FILE "bob" "0xb0b"
       (write_file WALLET_FILE commented_file empty_world)).1.
Proof.
  destruct (add_new_wallet_outcome [("alice", "0xa1")] WALLET_FILE
              [" bob "; "0xb0b"; "Y"; ""]
              (write_file WALLET_FILE commented_file empty_world)
              (wallets_set "bob" "0xb0b" [("alice", "0xa1")]) []
              (append_wallet WALLET_FILE "bob" "0xb0b"
                 (write_file WALLET_FILE commented_file empty_world)).1)
    as [[Hsame _] | (typed & name & address & Htyped & -> & _ & _ & _
                     & Hset & Happend & _ & Hsync)].
  - vm_compute. reflexivity.
  - discriminate Hsame.
  - injection Htyped as <-.
    assert (address = "0xb0b") as ->.
    { change (strip " bob ") with "bob" in Hset. simpl in Hset.
      by injection Hset as <-. }
    apply Hsync; [reflexivity | reflexivity |].
    exists commented_file. split; [apply lookup_insert_eq|]. split.
    + right. exists ("# wallets" +:+ String lf "" +:+ "alice,0xa1").
      reflexivity.
    + reflexivity.
Defined.

Lemma select_market_loop_in_range blogger_dir markets max_pages page stdin :
  (0 ≤ page)%Z →
  select_market_loop blogger_dir markets max_pages page stdin ≠ OutOfRange
  ∧ ∀ path rest,
      select_market_loop blogger_dir markets max_pages page stdin
        = Picked path rest →
      ∃ market, market ∈ markets ∧ path = path_join blogger_dir market.
Proof.
  revert page. induction stdin as [|line stdin IH]; intros page Hpage; [done|].
  simpl.
  destruct (String.eqb (lower (strip line)) "n" && (page <? max_pages - 1)%Z);
    [apply IH; lia|].
  destruct (String.eqb (lower (strip line)) "p" && (0 <? page)%Z) eqn:Hprev.
  { apply IH. apply andb_prop in Hprev as [_ Hprev].
    apply Z.ltb_lt in Hprev. lia. }
  destruct (String.eqb (lower (strip line)) "b"); [done|].
  destruct (parse_int (lower (strip line))) as [num|]; [|by apply IH].
  destruct ((1 <=? num)%Z && (num <=? _)%Z) eqn:Hnum; [|by apply IH].
  apply andb_prop in Hnum as [H1 H2]. apply Z.leb_le in H1, H2.
  unfold py_index.
  replace (0 <=? page * 20 + num - 1)%Z with true
    by (symmetry; apply Z.leb_le; lia).
  destruct (lookup_lt_is_Some_2 markets (Z.to_nat (page * 20 + num - 1))
              ltac:(lia)) as [market Hmarket].
  rewrite Hmarket. split; [done|].
  intros path rest [= <- <-]. exists market.
  split; [by eapply list_elem_of_lookup_2 | done].
Qed.

(** X24: the market menu never indexes outside the list, on whatever page: what
    it returns is the path, under the directory of the blogger, of a file of
    the directory whose name ends in .csv. *)
Theorem select_market_menu_picks_listed blogger listing stdin :
  select_market_menu blogger listing stdin ≠ OutOfRange
  ∧ ∀ path rest,
      select_market_menu blogger listing stdin = Picked path rest →
      ∃ market, market ∈ listing ∧ ends_with ".csv" market = true
                ∧ path = path_join (path_join OUTPUT_ROOT blogger) market.
Proof.
  unfold select_market_menu. cbv zeta.
  destruct (filter (λ f, ends_with ".csv" f = true) listing)
    as [|m markets] eqn:Hmarkets.
  { destruct stdin; done. }
  rewrite <- Hmarkets.
  destruct (select_market_loop_in_range (path_join OUTPUT_ROOT blogger)
    (merge_sort String.le (filter (λ f, ends_with ".csv" f = true) listing))
    ((Z.of_nat (length (merge_sort String.le
        (filter (λ f, ends_with ".csv" f = true) listing))) - 1) / 20 + 1)%Z
    0%Z stdin ltac:(lia)) as [Hrange Hpicked].
  split; [exact Hrange|].
  intros path rest Hrun.
  destruct (Hpicked path rest Hrun) as (market & Hin & ->).
  rewrite merge_sort_Permutation in Hin.
  apply list_elem_of_filter in Hin as [Hcsv Hin]. by exists market.
Qed.

Lemma select_market_menu_picks_listed_witness :
  ∃ market, market ∈ sample_listing ∧ ends_with ".csv" market = true
            ∧ "/root/mcollect/data/alice/market-34.csv"
              = path_join (path_join OUTPUT_ROOT "alice") market.
Proof.
  apply (proj2 (select_market_menu_picks_listed "alice" sample_listing
                  ["x"; "p"; "21"; " N "; "n"; "6"; "5"; "1"])
           "/root/mcollect/data/alice/market-34.csv" ["1"]).
  vm_compute. reflexivity.
Defined.

(** ** The Deduplicator and the Grouper together *)

(** X25: in the groups made from a deduplicated batch no identity occurs
    twice, and every group is a subsequence of the fetched batch: grouping
    brings no duplicate back and keeps the fetch order. *)
Theorem groups_of_deduplicated activities k l :
  (k, l) ∈ group_by_market (remove_duplicates activities) →
  NoDup (unique_key <$> l) ∧ l `sublist_of` activities.
Proof.
  rewrite group_by_market_groups_of.
  intros (k' & [= -> ->] & _)%list_elem_of_fmap.
  destruct (remove_duplicates_inv activities) as [_ Hsub Hfirst].
  fold (remove_duplicates activities) in Hsub, Hfirst.
  assert (filter (λ a, slug_of a = k') (remove_duplicates activities)
            `sublist_of` remove_duplicates activities) as Hfilter
    by apply sublist_filter.
  split.
  - eapply sublist_NoDup; [|by apply fmap_sublist].
    apply NoDup_fmap_of_filter. intros key.
    rewrite Hfirst, length_take. lia.
  - by etrans.
Qed.

Lemma groups_of_deduplicated_witness :
  NoDup (unique_key <$> [trade_1; split_a])
  ∧ [trade_1; split_a] `sublist_of` [trade_1; split_a; trade_1_again].
Proof.
  apply (groups_of_deduplicated [trade_1; split_a; trade_1_again]
           (SStr "market-a")).
  apply list_elem_of_lookup_2 with 0. vm_compute. reflexivity.
Defined.

(** ** Timestamps out of range *)

(** Days outside the years 1 to 9999 fall in a year outside 1 to 9999. *)
Lemma civil_year_outside days :
  (days < -719162 ∨ 2932896 < days)%Z →
  ((civil_from_days days).1.1 < 1 ∨ 9999 < (civil_from_days days).1.1)%Z.
Proof.
  intros H. unfold civil_from_days.
  remember (days + 719468)%Z as z eqn:Hz.
  remember (z / 146097)%Z as era eqn:Hera.
  remember (z - era * 146097)%Z as doe eqn:Hdoe.
  remember ((doe - doe / 1460 + doe / 36524 - doe / 146096) / 365)%Z
    as yoe eqn:Hyoe.
  remember (doe - (365 * yoe + yoe / 4 - yoe / 100))%Z as doy eqn:Hdoy.
  remember ((5 * doy + 2) / 153)%Z as mp eqn:Hmp.
  cbv zeta. cbn [fst].
  assert (0 ≤ doe ≤ 146096)%Z by (clear Hyoe Hdoy Hmp; euclid; lia).
  assert (0 ≤ yoe ≤ 399)%Z by (clear Hz Hera Hdoe Hdoy Hmp; euclid; lia).
  assert (0 ≤ doy ≤ 365)%Z by (clear Hz Hera Hdoe Hmp; euclid; lia).
  assert (0 ≤ mp ≤ 11)%Z by (clear Hz Hera Hdoe Hyoe Hdoy; euclid; lia).
  assert ((if (if mp <? 10 then mp + 3 else mp - 9) <=? 2 then 1 else 0)
          = (if mp <? 10 then 0 else 1))%Z as ->.
  { destruct (mp <? 10)%Z eqn:Hlt.
    - apply Z.ltb_lt in Hlt.
      by replace (mp + 3 <=? 2)%Z with false by (symmetry; apply Z.leb_gt; lia).
    - apply Z.ltb_ge in Hlt.
      by replace (mp - 9 <=? 2)%Z with true by (symmetry; apply Z.leb_le; lia). }
  destruct H as [Hlow | Hhigh].
  - left.
    assert (era ≤ 0)%Z by (clear Hyoe Hdoy Hmp Hdoe; euclid; lia).
    destruct (Z.eq_dec era 0) as [He|He];
      [|destruct (mp <? 10)%Z; lia].
    assert (doe ≤ 305)%Z by lia.
    assert (yoe = 0)%Z by (clear Hz Hera Hdoe Hdoy Hmp; euclid; lia).
    assert (doy = doe) by (clear Hyoe Hz Hera Hdoe Hmp; subst yoe; euclid; lia).
    assert (mp < 10)%Z by (clear Hz Hera Hdoe Hyoe Hdoy; euclid; lia).
    replace (mp <? 10)%Z with true by (symmetry; apply Z.ltb_lt; lia). lia.
  - right.
    assert (24 ≤ era)%Z by (clear Hyoe Hdoy Hmp Hdoe; euclid; lia).
    destruct (Z.eq_dec era 24) as [He|He];
      [|destruct (mp <? 10)%Z; lia].
    assert (146037 ≤ doe)%Z by lia.
    assert (yoe = 399)%Z by (clear Hz Hera Hdoe Hdoy Hmp; euclid; lia).
    assert (306 ≤ doy)%Z
      by (clear Hyoe Hz Hera Hdoe Hmp; subst yoe; euclid; lia).
    assert (10 ≤ mp)%Z by (clear Hz Hera Hdoe Hyoe Hdoy; euclid; lia).
    replace (mp <? 10)%Z with false by (symmetry; apply Z.ltb_ge; lia). lia.
Qed.

Lemma fromtimestamp_utc_outside t :
  (t < -62135596800 ∨ 253402300799 < t)%Z → fromtimestamp_utc t = Err ValueError.
Proof.
  intros Ht. unfold fromtimestamp_utc.
  assert (t / 86400 < -719162 ∨ 2932896 < t / 86400)%Z as Hdays
    by (euclid; lia).
  apply civil_year_outside in Hdays.
  destruct (civil_from_days (t / 86400)) as [[y m] d]. simpl in Hdays.
  replace ((1 <=? y)%Z && (y <=? 9999)%Z) with false; [done|].
  symmetry. apply andb_false_iff.
  destruct Hdays; [left; apply Z.leb_gt | right; apply Z.leb_gt]; lia.
Qed.

(** X26: a timestamp that reads as an instant before the year 1 or after the
    year 9999 (an epoch in milliseconds, say) cannot be formatted: building
    the row raises, so the record is not written and the exception leaves
    the Gate. *)
Theorem datetime_out_of_range_raises a t :
  truthy (get a "timestamp") = true →
  py_int (get a "timestamp") = Ok t →
  (t < -62135596800 ∨ 253402300799 < t)%Z →
  datetime_cell a = Err ValueError
  ∧ csv_line a = Err ValueError
  ∧ renders a = false.
Proof.
  intros Ht Hint Hrange.
  assert (datetime_cell a = Err ValueError) as Hcell.
  { unfold datetime_cell. rewrite Ht, get_or_truthy, Hint by done.
    simpl. by rewrite fromtimestamp_utc_outside. }
  pose proof (csv_line_err _ _ Hcell) as Hline.
  split; [done|]. split; [done|]. unfold renders. by rewrite Hline.
Qed.

Lemma datetime_out_of_range_raises_witness :
  datetime_cell millis_timestamp = Err ValueError
  ∧ csv_line millis_timestamp = Err ValueError
  ∧ renders millis_timestamp = false.
Proof.
  apply (datetime_out_of_range_raises millis_timestamp 1700000000000).
  - vm_compute. reflexivity.
  - vm_compute. reflexivity.
  - right. lia.
Defined.
